(** * hollow-sphere-ascii: the renderer of [hollow-sphere-ascii.cpp] in Rocq

    A shallow embedding of the software rasteriser: the rotation of a vertex
    by three Euler angles, the perspective projection and depth-tested write
    into the canvas, the ring sampler, the flush of the frame buffer to the
    terminal and the per-frame update of the animation angles.

    Conventions of the embedding.
    - [float] is read as a real number ([R] of the Standard Library) with
      exact arithmetic, [sin], [cos] and [sqrt]; decimal literals of the
      source are the rationals they denote.  Rounding of binary32, NaN and
      infinities are outside this reading.  Division is the total division
      of [R]; the source divides by [vertex.z + Z_OFFSET] unguarded, and the
      statements about the projector say where that divisor is non-zero.
      Where a statement depends on the rounding itself (which integer the
      projector stores, where the loop counter of [initRing] stops), the
      code is read in binary32 instead: [project32], [initRing_counter32].
    - [int] is read as [Z].  [static_cast<int>] of a [float] truncates
      toward zero; the source leaves an out-of-range conversion and signed
      overflow undefined, the model computes with unbounded integers.
    - [char] is [ascii]; [std::array] is a list, read with [!!!] and
      written with [<[ _ := _ ]>], always below the bounds check of the
      source; [std::cout] is the list of characters written so far.
    - The globals of the anonymous namespace ([pitch], [yaw], [roll],
      [frameBuffer], [depthBuffer]) and the output stream are the fields of
      the record [State], threaded through every [void] function. *)

From Stdlib Require Import Reals Lra Lia ZArith Ascii RNsatz SpecFloat.
From stdpp Require Import base list.
From Equations Require Import Equations.

#[local] Open Scope R_scope.

(** ** Constants (lines 15-27) *)

Definition SCREEN_WIDTH : Z := 150.
Definition SCREEN_HEIGHT : Z := 50.
Definition SCREEN_SIZE : Z := SCREEN_WIDTH * SCREEN_HEIGHT.
Definition SCREEN_DISTANCE : Z := 35.
Definition X_OFFSET : R := IZR SCREEN_WIDTH / 2.
Definition Y_OFFSET : R := IZR SCREEN_HEIGHT / 2.
Definition Z_OFFSET : R := 20.
Definition RADIUS : R := 10.
Definition PI : R := 3.14159265358979323846.
Definition DEGREE_180 : R := 180.
Definition PITCH_DELTA : R := 0.005.
Definition YAW_DELTA : R := 0.005.
Definition ROLL_DELTA : R := 0.001.

(** The increment of the loop counter of [initRing] (line 98). *)
Definition RING_STEP : R := 0.025.

(** ** Data *)

Record Vertex : Type := mkVertex { x : R; y : R; z : R }.

(** The mutable globals (lines 28-30) and the output stream. *)
Record State : Type := mkState {
  pitch : R;
  yaw : R;
  roll : R;
  frameBuffer : list ascii;
  depthBuffer : list R;
  cout : list ascii
}.

#[local] Instance ascii_inhabited : Inhabited ascii := populate Ascii.zero.
#[local] Instance R_inhabited : Inhabited R := populate 0.
#[local] Instance Rgt_decision : RelDecision Rgt := Rgt_dec.

(** [static_cast<int>(f)]: the integer part of [f], rounded toward zero. *)
Definition static_cast_int (f : R) : Z :=
  if Rle_dec 0 f then Int_part f else (- Int_part (- f))%Z.

(** [std::fill(a.begin(), a.end(), v)]. *)
Definition fill {A : Type} (a : list A) (v : A) : list A :=
  replicate (length a) v.

Definition ESC : ascii := ascii_of_nat 27.
Definition newline : ascii := ascii_of_nat 10.
Definition blank : ascii := " "%char.

(** ** Terminal control and buffer reset (lines 36-47) *)

Definition clearScreen (s : State) : State :=
  mkState (pitch s) (yaw s) (roll s) (frameBuffer s) (depthBuffer s)
    (cout s ++ [ESC; "["; "2"; "J"; ESC; "["; "3"; "2"; "m"]%char).

Definition resetCursor (s : State) : State :=
  mkState (pitch s) (yaw s) (roll s) (frameBuffer s) (depthBuffer s)
    (cout s ++ [ESC; "["; "H"]%char).

Definition clearBuffers (s : State) : State :=
  mkState (pitch s) (yaw s) (roll s)
    (fill (frameBuffer s) blank) (fill (depthBuffer s) 0) (cout s).

Definition degreesToRadians (angle : R) : R := (angle / DEGREE_180) * PI.

(** ** Rotation (lines 53-76) *)

Definition rotateCalcX (vertex : Vertex) (alpha beta gamma : R) : R :=
  x vertex * cos gamma * cos beta
  + y vertex * (cos gamma * sin beta * sin alpha - sin gamma * cos alpha)
  + z vertex * (sin gamma * sin alpha + cos gamma * sin beta * cos alpha).

Definition rotateCalcY (vertex : Vertex) (alpha beta gamma : R) : R :=
  x vertex * sin gamma * cos beta
  + y vertex * (cos gamma * cos alpha + sin gamma * sin beta * sin alpha)
  + z vertex * (sin gamma * sin beta * cos alpha - cos gamma * sin alpha).

Definition rotateCalcZ (vertex : Vertex) (alpha beta gamma : R) : R :=
  - x vertex * sin beta
  + y vertex * cos beta * sin alpha
  + z vertex * cos beta * cos alpha.

Definition rotate (vertex : Vertex) (alpha beta gamma : R) : Vertex :=
  let x := rotateCalcX vertex alpha beta gamma in
  let y := rotateCalcY vertex alpha beta gamma in
  let z := rotateCalcZ vertex alpha beta gamma in
  mkVertex x y z.

(** ** Projection and depth-tested write (lines 78-90) *)

(** The locals of [writeVertex] computed before the depth test
    (lines 79-85). *)
Record Projection : Type := mkProjection {
  OOZ : R;
  xProjection : Z;
  yProjection : Z;
  idx : Z
}.

Definition project (vertex : Vertex) : Projection :=
  let Zc := z vertex + Z_OFFSET in
  let OOZ := 1 / Zc in
  let xProjection :=
    static_cast_int (IZR SCREEN_DISTANCE * OOZ * x vertex * 2) in
  let yProjection :=
    static_cast_int (IZR SCREEN_DISTANCE * OOZ * - y vertex) in
  let xProjection := (xProjection + static_cast_int X_OFFSET)%Z in
  let yProjection := (yProjection + static_cast_int Y_OFFSET)%Z in
  let idx := (xProjection + yProjection * SCREEN_WIDTH)%Z in
  mkProjection OOZ xProjection yProjection idx.

(** The condition of line 86. *)
Definition depthTest (p : Projection) (s : State) : bool :=
  (0 <=? idx p)%Z && (idx p <? SCREEN_SIZE)%Z
  && bool_decide (OOZ p > depthBuffer s !!! Z.to_nat (idx p)).

Definition writeVertex (vertex : Vertex) (character : ascii) (s : State)
  : State :=
  let p := project vertex in
  if depthTest p s then
    mkState (pitch s) (yaw s) (roll s)
      (<[Z.to_nat (idx p) := character]> (frameBuffer s))
      (<[Z.to_nat (idx p) := OOZ p]> (depthBuffer s))
      (cout s)
  else s.

(** ** Flush to the terminal (lines 92-95) *)

Definition renderFramebuffer (s : State) : State :=
  mkState (pitch s) (yaw s) (roll s) (frameBuffer s) (depthBuffer s)
    (fold_left
       (fun out i =>
          out ++ [if (Z.rem i SCREEN_WIDTH =? 0)%Z then newline
                  else frameBuffer s !!! Z.to_nat i])
       (seqZ 0 SCREEN_SIZE) (cout s)).

(** ** The ring sampler (lines 97-116) *)

(** The body of the [for] loop of [initRing] (lines 99-107). *)
Definition initRing_body (yawOffset : R) (character : ascii) (x : R)
  (s : State) : State :=
  let y := sqrt (RADIUS * RADIUS - x * x) in
  let vertex := rotate (mkVertex x y 0) 0 yawOffset 0 in
  let vertex := rotate vertex (pitch s) (yaw s) (roll s) in
  let s := writeVertex vertex character s in
  let vertex := rotate (mkVertex x (- y) 0) 0 yawOffset 0 in
  let vertex := rotate vertex (pitch s) (yaw s) (roll s) in
  writeVertex vertex character s.

(** The number of increments that still keep the counter at or below
    [RADIUS]; it decreases at every turn of the loop. *)
Definition ring_turns (x : R) : nat :=
  Z.to_nat (up ((RADIUS - x) / RING_STEP)).

(** The [for] loop of [initRing], from the current value of the counter. *)
Equations? initRing_loop (yawOffset : R) (character : ascii) (x : R)
  (s : State) : State by wf (ring_turns x) lt :=
  initRing_loop yawOffset character x s with Rle_dec x RADIUS := {
    | left _ =>
        initRing_loop yawOffset character (x + RING_STEP)
          (initRing_body yawOffset character x s);
    | right _ => s }.
Proof.
  match goal with H : ?c <= RADIUS |- _ => revert H; generalize c end.
  clear. intros c Hc. unfold ring_turns.
  replace ((RADIUS - (c + RING_STEP)) / RING_STEP)
    with ((RADIUS - c) / RING_STEP - 1) by (unfold RING_STEP; field; lra).
  set (q := (RADIUS - c) / RING_STEP).
  assert (Hq : 0 <= q) by (apply Rmult_le_pos; unfold RING_STEP; lra).
  destruct (archimed q) as [Hu1 Hu2].
  assert (Hup : up q = (up (q - 1) + 1)%Z).
  { symmetry.
    apply tech_up; rewrite plus_IZR; destruct (archimed (q - 1)); lra. }
  assert (Hpos : (0 < up q)%Z) by (apply lt_IZR; lra).
  lia.
Qed.

Definition initRing (yawOffset : R) (character : ascii) (s : State)
  : State :=
  initRing_loop yawOffset character (- RADIUS) s.

Definition initSphere (s : State) : State :=
  let s := initRing 0 "@"%char s in
  let s := initRing (degreesToRadians 45) "$"%char s in
  let s := initRing (degreesToRadians 90) "*"%char s in
  initRing (degreesToRadians 135) "!"%char s.

(** ** Animation state and the frame loop (lines 118-133) *)

Definition updateAngles (s : State) : State :=
  mkState (pitch s + PITCH_DELTA) (yaw s + YAW_DELTA) (roll s + ROLL_DELTA)
    (frameBuffer s) (depthBuffer s) (cout s).

(** One turn of the [while (true)] loop of [render]. *)
Definition frame (s : State) : State :=
  let s := clearBuffers s in
  let s := resetCursor s in
  let s := initSphere s in
  let s := renderFramebuffer s in
  updateAngles s.

(** [render] never returns; [render_frames n] is the state it has reached
    after [n] turns of its loop. *)
Fixpoint frames (n : nat) (s : State) : State :=
  match n with
  | O => s
  | S n => frames n (frame s)
  end.

Definition render_frames (n : nat) (s : State) : State :=
  frames n (clearScreen s).

(** The state at program start: zero-initialised globals, nothing written. *)
Definition initial_state : State :=
  mkState 0 0 0
    (replicate (Z.to_nat SCREEN_SIZE) Ascii.zero)
    (replicate (Z.to_nat SCREEN_SIZE) 0)
    [].

(** ** Vocabulary of the statements *)

(** Both buffers have the size fixed by their [std::array] type. *)
Definition wf (s : State) : Prop :=
  length (frameBuffer s) = Z.to_nat SCREEN_SIZE
  /\ length (depthBuffer s) = Z.to_nat SCREEN_SIZE.

(** The canvas of a state: glyphs and depths, without angles and output. *)
Definition canvas (s : State) : list ascii * list R :=
  (frameBuffer s, depthBuffer s).

(** A sequence of calls of [writeVertex], first call first. *)
Definition writeAll (ws : list (Vertex * ascii)) (s : State) : State :=
  fold_left (fun s w => writeVertex (fst w) (snd w) s) ws s.

(** The vertex that [initRing] hands to [writeVertex] for the ring point
    [(x, y, 0)]: the static yaw of the ring, then the animation angles. *)
Definition ring_vertex (yawOffset pitch yaw roll x y : R) : Vertex :=
  rotate (rotate (mkVertex x y 0) 0 yawOffset 0) pitch yaw roll.

(** [n] successive values of the loop counter of [initRing]. *)
Fixpoint ring_counter (n : nat) (x : R) : list R :=
  match n with
  | O => []
  | S n => x :: ring_counter n (x + RING_STEP)
  end.

(** The calls of [writeVertex] made by the loop of [initRing] when it is
    entered with counter [x]: upper and lower point for each value. *)
Definition ring_writes (yawOffset : R) (character : ascii)
  (pitch yaw roll x : R) : list (Vertex * ascii) :=
  flat_map
    (fun x =>
       let y := sqrt (RADIUS * RADIUS - x * x) in
       [(ring_vertex yawOffset pitch yaw roll x y, character);
        (ring_vertex yawOffset pitch yaw roll x (- y), character)])
    (ring_counter (ring_turns x) x).

(** The calls of [writeVertex] made by [initSphere]. *)
Definition sphere_writes (pitch yaw roll : R) : list (Vertex * ascii) :=
  ring_writes 0 "@"%char pitch yaw roll (- RADIUS)
  ++ ring_writes (degreesToRadians 45) "$"%char pitch yaw roll (- RADIUS)
  ++ ring_writes (degreesToRadians 90) "*"%char pitch yaw roll (- RADIUS)
  ++ ring_writes (degreesToRadians 135) "!"%char pitch yaw roll (- RADIUS).

(** [n] is [r] with its fractional part dropped. *)
Definition truncates (r : R) (n : Z) : Prop :=
  Rabs (IZR n) <= Rabs r < Rabs (IZR n) + 1 /\ 0 <= IZR n * r.

(** Rounding to the nearest integer, halves away from zero ([round] of
    [<cmath>]), the rounding the specification names for the projector. *)
Definition round (r : R) : Z :=
  if Rle_dec 0 r then Int_part (r + / 2) else (- Int_part (- r + / 2))%Z.

(** The screen column the specification gives for a vertex. *)
Definition spec_screen_x (vertex : Vertex) : Z :=
  let invZ := 1 / (z vertex + Z_OFFSET) in
  (round (IZR SCREEN_DISTANCE * invZ * x vertex * 2) + SCREEN_WIDTH / 2)%Z.

(** The screen row the specification gives for a vertex. *)
Definition spec_screen_y (vertex : Vertex) : Z :=
  let invZ := 1 / (z vertex + Z_OFFSET) in
  (round (IZR SCREEN_DISTANCE * invZ * - y vertex) + SCREEN_HEIGHT / 2)%Z.

(** The frame format of the specification: each of the [SCREEN_HEIGHT]
    rows is a newline followed by the [SCREEN_WIDTH] cells of that row. *)
Definition spec_frame (fb : list ascii) : list ascii :=
  flat_map
    (fun r =>
       newline
       :: map (fun c => fb !!! Z.to_nat (r * SCREEN_WIDTH + c))
            (seqZ 0 SCREEN_WIDTH))
    (seqZ 0 SCREEN_HEIGHT).

(** What [renderFramebuffer] prints for row [r]: a newline in place of the
    cell of column 0, then the cells of columns 1 to [SCREEN_WIDTH - 1]. *)
Definition printed_row (fb : list ascii) (r : Z) : list ascii :=
  newline
  :: map (fun c => fb !!! Z.to_nat (r * SCREEN_WIDTH + c))
       (seqZ 1 (SCREEN_WIDTH - 1)).

(** *** Rotation matrices, as the specification words the rotation *)

Record Matrix : Type := mkMatrix {
  m11 : R; m12 : R; m13 : R;
  m21 : R; m22 : R; m23 : R;
  m31 : R; m32 : R; m33 : R
}.

(** Rotation about the X axis by [a] (pitch). *)
Definition Rx (a : R) : Matrix :=
  mkMatrix 1 0 0
           0 (cos a) (- sin a)
           0 (sin a) (cos a).

(** Rotation about the Y axis by [b] (yaw). *)
Definition Ry (b : R) : Matrix :=
  mkMatrix (cos b) 0 (sin b)
           0 1 0
           (- sin b) 0 (cos b).

(** Rotation about the Z axis by [g] (roll). *)
Definition Rz (g : R) : Matrix :=
  mkMatrix (cos g) (- sin g) 0
           (sin g) (cos g) 0
           0 0 1.

(** Matrix product. *)
Definition mmul (A B : Matrix) : Matrix :=
  mkMatrix
    (m11 A * m11 B + m12 A * m21 B + m13 A * m31 B)
    (m11 A * m12 B + m12 A * m22 B + m13 A * m32 B)
    (m11 A * m13 B + m12 A * m23 B + m13 A * m33 B)
    (m21 A * m11 B + m22 A * m21 B + m23 A * m31 B)
    (m21 A * m12 B + m22 A * m22 B + m23 A * m32 B)
    (m21 A * m13 B + m22 A * m23 B + m23 A * m33 B)
    (m31 A * m11 B + m32 A * m21 B + m33 A * m31 B)
    (m31 A * m12 B + m32 A * m22 B + m33 A * m32 B)
    (m31 A * m13 B + m32 A * m23 B + m33 A * m33 B).

(** Matrix applied to a vertex read as a column vector. *)
Definition mapply (A : Matrix) (p : Vertex) : Vertex :=
  mkVertex
    (m11 A * x p + m12 A * y p + m13 A * z p)
    (m21 A * x p + m22 A * y p + m23 A * z p)
    (m31 A * x p + m32 A * y p + m33 A * z p).

(** Squared Euclidean norm of a vertex. *)
Definition norm2 (p : Vertex) : R := x p * x p + y p * y p + z p * z p.

(** The glyph and the depth stored in cell [i] of the canvas. *)
Definition glyphAt (s : State) (i : Z) : ascii :=
  frameBuffer s !!! Z.to_nat i.

Definition depthAt (s : State) (i : Z) : R :=
  depthBuffer s !!! Z.to_nat i.

(** [i] is a cell of the canvas. *)
Definition on_screen (i : Z) : Prop := (0 <= i < SCREEN_SIZE)%Z.

(** *** Concrete inputs used below *)

(** Projects to the fractional screen position (83.75, 16.25). *)
Definition vertex_fractional : Vertex := mkVertex (1 / 2) 1 (-16).

(** Far above the screen: row -150. *)
Definition vertex_above : Vertex := mkVertex 0 100 0.

(** Right of the last column: column 215 of row 25. *)
Definition vertex_right : Vertex := mkVertex 40 0 0.

(** Behind the camera plane: [z + Z_OFFSET = -10], centre of the screen. *)
Definition vertex_behind : Vertex := mkVertex 0 0 (-30).

(** In front of the camera, centre of the screen, depths 40 and 20. *)
Definition vertex_far : Vertex := mkVertex 0 0 20.
Definition vertex_near : Vertex := mkVertex 0 0 0.

(** A cleared canvas at program start. *)
Definition cleared_state : State := clearBuffers initial_state.

(** Further behind the camera plane: [z + Z_OFFSET = -5], centre of the
    screen. *)
Definition vertex_behind_far : Vertex := mkVertex 0 0 (-25).

(** The cell of the centre of the screen: column 75 of row 25. *)
Definition centre_cell : Z := 3825.

(** The cell hit by [vertex_right]: column 65 of row 26. *)
Definition wrapped_cell : Z := 3965.

(** A cleared canvas with the glyph [#] in cell 0, the first column of the
    first row. *)
Definition marked_state : State :=
  mkState 0 0 0
    (<[0%nat := "#"%char]> (replicate (Z.to_nat SCREEN_SIZE) blank))
    (replicate (Z.to_nat SCREEN_SIZE) 0)
    [].

(** *** Vocabulary of the further properties *)

(** Difference of two vertices, coordinate by coordinate. *)
Definition vsub (p q : Vertex) : Vertex :=
  mkVertex (x p - x q) (y p - y q) (z p - z q).

(** The glyphs of the four rings (lines 112-115). *)
Definition glyphs : list ascii := ["@"; "$"; "*"; "!"]%char.

(** The characters printed by [clearScreen] and by [resetCursor]. *)
Definition clear_sequence : list ascii :=
  [ESC; "["; "2"; "J"; ESC; "["; "3"; "2"; "m"]%char.

Definition home_sequence : list ascii := [ESC; "["; "H"]%char.

(** The part of the screen the sphere can reach: rows 5 to 45, columns 35
    to 115. *)
Definition in_box (i : Z) : Prop :=
  (5 <= i / SCREEN_WIDTH <= 45)%Z /\ (35 <= i mod SCREEN_WIDTH <= 115)%Z.

(** ** The projector in binary32

    Where a statement depends on how the [float] products are rounded, the
    projector and the loop counter of [initRing] are read in binary32
    itself: [spec_float] of the Standard Library with 24 bits of precision,
    every operation rounded to nearest, ties to even.  A conversion to
    [int] and an [int] operation are [None] where the source leaves them
    undefined (NaN, infinity, a value outside the 32-bit range). *)

Definition prec32 : Z := 24.
Definition emax32 : Z := 128.
Definition float32 : Type := spec_float.

(** The conversion of an [int] operand to [float]. *)
Definition f32_of_int (n : Z) : float32 :=
  binary_normalize prec32 emax32 n 0 false.

Definition f32_add : float32 -> float32 -> float32 := SFadd prec32 emax32.
Definition f32_mul : float32 -> float32 -> float32 := SFmul prec32 emax32.
Definition f32_div : float32 -> float32 -> float32 := SFdiv prec32 emax32.

(** The real number a finite [float] stands for (0 for the others). *)
Definition f32_value (f : float32) : R :=
  match f with
  | S754_finite s m e =>
      IZR (cond_Zopp s (Z.pos m))
      * (if (0 <=? e)%Z then IZR (2 ^ e) else / IZR (2 ^ (- e)))
  | _ => 0
  end.

Definition INT_MIN : Z := -2147483648.
Definition INT_MAX : Z := 2147483647.

(** An [int] result, defined when it fits 32 bits. *)
Definition int_checked (n : Z) : option Z :=
  if (INT_MIN <=? n)%Z && (n <=? INT_MAX)%Z then Some n else None.

(** [static_cast<int>] of a binary32 value: the fractional part is
    dropped. *)
Definition f32_to_int (f : float32) : option Z :=
  match f with
  | S754_zero _ => Some 0%Z
  | S754_finite s m e =>
      int_checked
        (cond_Zopp s
           (if (0 <=? e)%Z then Z.pos m * 2 ^ e
            else Z.quot (Z.pos m) (2 ^ (- e))))%Z
  | _ => None
  end.

Record Vertex32 : Type := mkVertex32 {
  x32 : float32; y32 : float32; z32 : float32
}.

Record Projection32 : Type := mkProjection32 {
  OOZ32 : float32;
  xProjection32 : Z;
  yProjection32 : Z;
  idx32 : Z
}.

(** The constants of lines 19-22 in binary32. *)
Definition X_OFFSET32 : float32 :=
  f32_div (f32_of_int SCREEN_WIDTH) (f32_of_int 2).
Definition Y_OFFSET32 : float32 :=
  f32_div (f32_of_int SCREEN_HEIGHT) (f32_of_int 2).
Definition Z_OFFSET32 : float32 := f32_of_int 20.
Definition RADIUS32 : float32 := f32_of_int 10.

(** The literal [0.025f] of line 98: the binary32 value nearest to
    25/1000. *)
Definition RING_STEP32 : float32 :=
  f32_div (f32_of_int 25) (f32_of_int 1000).

(** [1 / (vertex.z + Z_OFFSET)] (lines 79-80). *)
Definition invZ32 (vertex : Vertex32) : float32 :=
  f32_div (f32_of_int 1) (f32_add (z32 vertex) Z_OFFSET32).

(** [SCREEN_DISTANCE * OOZ * vertex.x * 2] (line 81), before the
    conversion to [int]. *)
Definition column_product32 (vertex : Vertex32) : float32 :=
  f32_mul
    (f32_mul (f32_mul (f32_of_int SCREEN_DISTANCE) (invZ32 vertex))
       (x32 vertex))
    (f32_of_int 2).

(** [SCREEN_DISTANCE * OOZ * -vertex.y] (line 82), before the conversion
    to [int]. *)
Definition row_product32 (vertex : Vertex32) : float32 :=
  f32_mul (f32_mul (f32_of_int SCREEN_DISTANCE) (invZ32 vertex))
    (SFopp (y32 vertex)).

(** Lines 79-85 of [writeVertex] in binary32 and 32-bit [int]. *)
Definition project32 (vertex : Vertex32) : option Projection32 :=
  match f32_to_int (column_product32 vertex),
        f32_to_int (row_product32 vertex),
        f32_to_int X_OFFSET32, f32_to_int Y_OFFSET32 with
  | Some xProjection, Some yProjection, Some xOffset, Some yOffset =>
      match int_checked (xProjection + xOffset),
            int_checked (yProjection + yOffset) with
      | Some xProjection, Some yProjection =>
          match int_checked (yProjection * SCREEN_WIDTH) with
          | Some rowStart =>
              match int_checked (xProjection + rowStart) with
              | Some idx =>
                  Some (mkProjection32 (invZ32 vertex)
                          xProjection yProjection idx)
              | None => None
              end
          | None => None
          end
      | _, _ => None
      end
  | _, _, _, _ => None
  end.

(** The values the counter of the loop of [initRing] takes in binary32
    (line 98); [None] if the loop has not ended after [fuel] turns. *)
Fixpoint initRing_counter32 (fuel : nat) (x : float32)
  : option (list float32) :=
  match fuel with
  | O => None
  | S fuel =>
      if SFleb x RADIUS32
      then option_map (cons x) (initRing_counter32 fuel (f32_add x RING_STEP32))
      else Some []
  end.

(** *** Concrete binary32 inputs *)

Definition f32_half : float32 := f32_div (f32_of_int 1) (f32_of_int 2).

(** The vertex (1/2, 1, -16). *)
Definition vertex32_fractional : Vertex32 :=
  mkVertex32 f32_half (f32_of_int 1) (f32_of_int (-16)).

(** The vertex (-7, 0, 29), whose column product is -10 over the reals and
    rounds to a value just above -10 in binary32. *)
Definition vertex32_rounded : Vertex32 :=
  mkVertex32 (f32_of_int (-7)) (f32_of_int 0) (f32_of_int 29).

(** What [project32] returns for [vertex32_fractional]: inverse depth 1/4,
    column 83, row 17. *)
Definition projection32_fractional : Projection32 :=
  mkProjection32 (f32_div (f32_of_int 1) (f32_of_int 4)) 83 17 2633.

(** The last value of the loop counter of [initRing] in binary32:
    10485741 / 2^20 = 9.99998188... *)
Definition last_counter32 : float32 := S754_finite false 10485741 (-20).

(** * Properties *)

(** ** Rotation *)

(** C3: [rotate p pitch yaw roll] is [Rz roll * Ry yaw * Rx pitch] applied to
    [p] as a column vector, that is [Rx pitch] applied first, then
    [Ry yaw], then [Rz roll]; the code is the expanded product. *)
Theorem rotate_is_Rz_Ry_Rx (p : Vertex) (pitch yaw roll : R) :
  rotate p pitch yaw roll = mapply (mmul (Rz roll) (mmul (Ry yaw) (Rx pitch))) p
  /\ rotate p pitch yaw roll
     = mapply (Rz roll) (mapply (Ry yaw) (mapply (Rx pitch) p)).
Proof.
  destruct p as [px py pz].
  split; unfold rotate, rotateCalcX, rotateCalcY, rotateCalcZ, mapply, mmul,
    Rx, Ry, Rz; cbn; f_equal; ring.
Qed.

(** C9: rotating by the angles (0, 0, 0) returns the vertex unchanged. *)
Theorem rotate_zero_identity (p : Vertex) : rotate p 0 0 0 = p.
Proof.
  destruct p as [px py pz].
  unfold rotate, rotateCalcX, rotateCalcY, rotateCalcZ; cbn.
  rewrite sin_0, cos_0. f_equal; ring.
Qed.

(** Rotation keeps the distance to the origin. *)
Lemma rotate_norm2 (p : Vertex) (alpha beta gamma : R) :
  norm2 (rotate p alpha beta gamma) = norm2 p.
Proof.
  destruct p as [px py pz].
  unfold norm2, rotate, rotateCalcX, rotateCalcY, rotateCalcZ; cbn.
  pose proof (sin2_cos2 alpha) as Ha.
  pose proof (sin2_cos2 beta) as Hb.
  pose proof (sin2_cos2 gamma) as Hg.
  unfold Rsqr in Ha, Hb, Hg.
  set (sa := sin alpha) in *. set (ca := cos alpha) in *.
  set (sb := sin beta) in *. set (cb := cos beta) in *.
  set (sg := sin gamma) in *. set (cg := cos gamma) in *.
  assert (Hsa : sa * sa = 1 - ca * ca) by lra.
  assert (Hsb : sb * sb = 1 - cb * cb) by lra.
  assert (Hsg : sg * sg = 1 - cg * cg) by lra.
  clear Ha Hb Hg.
  nsatz.
Qed.

(** ** Conversion to [int] *)

Lemma Int_part_nonneg (r : R) : 0 <= r -> (0 <= Int_part r)%Z.
Proof.
  intros Hr. destruct (base_Int_part r) as [_ Hlow].
  assert (H : (-1 < Int_part r)%Z) by (apply lt_IZR; lra).
  lia.
Qed.

(** [static_cast_int] drops the fractional part. *)
Lemma static_cast_int_truncates (r : R) : truncates r (static_cast_int r).
Proof.
  unfold truncates, static_cast_int.
  destruct (Rle_dec 0 r) as [Hr | Hr].
  - destruct (base_Int_part r) as [Hup Hlow].
    pose proof (IZR_le _ _ (Int_part_nonneg r Hr)) as Hn.
    rewrite !Rabs_pos_eq by lra. nra.
  - apply Rnot_le_lt in Hr.
    assert (Hr' : 0 <= - r) by lra.
    destruct (base_Int_part (- r)) as [Hup Hlow].
    pose proof (IZR_le _ _ (Int_part_nonneg (- r) Hr')) as Hn.
    rewrite opp_IZR, Rabs_Ropp, (Rabs_left r) by lra.
    rewrite Rabs_pos_eq by lra. nra.
Qed.

(** There is one such integer only. *)
Lemma truncates_unique (r : R) (n m : Z) :
  truncates r n -> truncates r m -> n = m.
Proof.
  unfold truncates. rewrite <- !abs_IZR.
  intros [[Hn1 Hn2] Hn3] [[Hm1 Hm2] Hm3].
  assert (Habs : Z.abs n = Z.abs m).
  { assert (H1 : (Z.abs n < Z.abs m + 1)%Z)
      by (apply lt_IZR; rewrite plus_IZR; lra).
    assert (H2 : (Z.abs m < Z.abs n + 1)%Z)
      by (apply lt_IZR; rewrite plus_IZR; lra).
    lia. }
  destruct (Rtotal_order r 0) as [Hr | [Hr | Hr]].
  - assert (H1 : (n <= 0)%Z) by (apply le_IZR; nra).
    assert (H2 : (m <= 0)%Z) by (apply le_IZR; nra).
    lia.
  - subst r. rewrite Rabs_R0 in Hn1, Hm1.
    assert (H1 : (Z.abs n <= 0)%Z) by (apply le_IZR; lra).
    lia.
  - assert (H1 : (0 <= n)%Z) by (apply le_IZR; nra).
    assert (H2 : (0 <= m)%Z) by (apply le_IZR; nra).
    lia.
Qed.

Lemma static_cast_int_eq (r : R) (n : Z) :
  truncates r n -> static_cast_int r = n.
Proof.
  intros Hn.
  apply (truncates_unique r); [apply static_cast_int_truncates | exact Hn].
Qed.

Lemma static_cast_int_IZR (n : Z) : static_cast_int (IZR n) = n.
Proof.
  apply static_cast_int_eq. unfold truncates.
  split; [lra | nra].
Qed.

Lemma static_cast_int_X_OFFSET : static_cast_int X_OFFSET = 75%Z.
Proof.
  replace X_OFFSET with (IZR 75) by (unfold X_OFFSET, SCREEN_WIDTH; lra).
  apply static_cast_int_IZR.
Qed.

Lemma static_cast_int_Y_OFFSET : static_cast_int Y_OFFSET = 25%Z.
Proof.
  replace Y_OFFSET with (IZR 25) by (unfold Y_OFFSET, SCREEN_HEIGHT; lra).
  apply static_cast_int_IZR.
Qed.

(** ** Projection *)

Lemma project_OOZ (v : Vertex) : OOZ (project v) = 1 / (z v + Z_OFFSET).
Proof. reflexivity. Qed.

Lemma project_xProjection (v : Vertex) :
  xProjection (project v)
  = (static_cast_int (IZR SCREEN_DISTANCE * (1 / (z v + Z_OFFSET)) * x v * 2)
     + 75)%Z.
Proof. unfold project; cbn. now rewrite static_cast_int_X_OFFSET. Qed.

Lemma project_yProjection (v : Vertex) :
  yProjection (project v)
  = (static_cast_int (IZR SCREEN_DISTANCE * (1 / (z v + Z_OFFSET)) * - y v)
     + 25)%Z.
Proof. unfold project; cbn. now rewrite static_cast_int_Y_OFFSET. Qed.

Lemma project_idx (v : Vertex) :
  idx (project v)
  = (xProjection (project v) + yProjection (project v) * SCREEN_WIDTH)%Z.
Proof. reflexivity. Qed.

Lemma static_cast_int_pos (r : R) (n : Z) :
  (0 <= n)%Z -> IZR n <= r < IZR n + 1 -> static_cast_int r = n.
Proof.
  intros Hn Hr. apply IZR_le in Hn.
  apply static_cast_int_eq. unfold truncates.
  rewrite !Rabs_pos_eq by lra. split; [lra | nra].
Qed.

Lemma static_cast_int_neg (r : R) (n : Z) :
  (n <= 0)%Z -> IZR n - 1 < r <= IZR n -> static_cast_int r = n.
Proof.
  intros Hn Hr. apply IZR_le in Hn.
  apply static_cast_int_eq. unfold truncates.
  rewrite !Rabs_left1 by lra. split; [lra | nra].
Qed.

Lemma round_pos (r : R) (n : Z) :
  0 <= r -> IZR n <= r + / 2 < IZR n + 1 -> round r = n.
Proof.
  intros Hr Hn. unfold round.
  destruct (Rle_dec 0 r) as [_ | []]; [| exact Hr].
  symmetry. apply Int_part_spec. lra.
Qed.

Lemma round_neg (r : R) (n : Z) :
  r < 0 -> IZR n - 1 < r - / 2 <= IZR n -> round r = n.
Proof.
  intros Hr Hn. unfold round.
  destruct (Rle_dec 0 r) as [Hr' | _]; [lra |].
  assert (H : (- n)%Z = Int_part (- r + / 2))
    by (apply Int_part_spec; rewrite opp_IZR; lra).
  lia.
Qed.

Lemma project_vertex_fractional :
  xProjection (project vertex_fractional) = 83%Z
  /\ yProjection (project vertex_fractional) = 17%Z.
Proof.
  rewrite project_xProjection, project_yProjection.
  unfold vertex_fractional, SCREEN_DISTANCE, Z_OFFSET; cbn [x y z].
  rewrite (static_cast_int_pos _ 8), (static_cast_int_neg _ (-8));
    [split; reflexivity | lia | lra | lia | lra].
Qed.

(** C2, as stated, fails: the vertex (1/2, 1, -16) has [z + Z_OFFSET = 4],
    its column before the offset is 8.75 and its row -8.75; the code
    stores column 83 and row 17, rounding to nearest gives 84 and 16. *)
Lemma project_not_rounded :
  z vertex_fractional + Z_OFFSET <> 0
  /\ xProjection (project vertex_fractional) = 83%Z
  /\ spec_screen_x vertex_fractional = 84%Z
  /\ yProjection (project vertex_fractional) = 17%Z
  /\ spec_screen_y vertex_fractional = 16%Z
  /\ xProjection (project vertex_fractional) <> spec_screen_x vertex_fractional
  /\ yProjection (project vertex_fractional) <> spec_screen_y vertex_fractional.
Proof.
  destruct project_vertex_fractional as [Hx Hy].
  assert (Hsx : spec_screen_x vertex_fractional = 84%Z).
  { unfold spec_screen_x, vertex_fractional, SCREEN_DISTANCE, Z_OFFSET;
      cbn [x y z].
    rewrite (round_pos _ 9); [reflexivity | lra | lra]. }
  assert (Hsy : spec_screen_y vertex_fractional = 16%Z).
  { unfold spec_screen_y, vertex_fractional, SCREEN_DISTANCE, Z_OFFSET;
      cbn [x y z].
    rewrite (round_neg _ (-9)); [reflexivity | lra | lra]. }
  rewrite Hx, Hy, Hsx, Hsy.
  repeat split; try reflexivity; try lia.
  unfold vertex_fractional, Z_OFFSET; cbn [z]. lra.
Qed.

(** ** The depth-tested write *)

Lemma depthTest_spec (p : Projection) (s : State) :
  depthTest p s = true
  <-> on_screen (idx p) /\ OOZ p > depthAt s (idx p).
Proof.
  unfold depthTest, on_screen, depthAt.
  rewrite !andb_true_iff, Z.leb_le, Z.ltb_lt, bool_decide_eq_true. tauto.
Qed.

Lemma writeVertex_hit (v : Vertex) (c : ascii) (s : State) :
  on_screen (idx (project v)) ->
  OOZ (project v) > depthAt s (idx (project v)) ->
  writeVertex v c s
  = mkState (pitch s) (yaw s) (roll s)
      (<[Z.to_nat (idx (project v)) := c]> (frameBuffer s))
      (<[Z.to_nat (idx (project v)) := OOZ (project v)]> (depthBuffer s))
      (cout s).
Proof.
  intros Hon Hgt. unfold writeVertex.
  destruct (depthTest (project v) s) eqn:Ht; [reflexivity |].
  apply not_true_iff_false in Ht. rewrite depthTest_spec in Ht. tauto.
Qed.

Lemma writeVertex_miss (v : Vertex) (c : ascii) (s : State) :
  ~ (on_screen (idx (project v))
     /\ OOZ (project v) > depthAt s (idx (project v))) ->
  writeVertex v c s = s.
Proof.
  intros Hno. unfold writeVertex.
  destruct (depthTest (project v) s) eqn:Ht; [| reflexivity].
  apply depthTest_spec in Ht. tauto.
Qed.

Lemma writeVertex_cases (v : Vertex) (c : ascii) (s : State) :
  (on_screen (idx (project v))
   /\ OOZ (project v) > depthAt s (idx (project v))
   /\ writeVertex v c s
      = mkState (pitch s) (yaw s) (roll s)
          (<[Z.to_nat (idx (project v)) := c]> (frameBuffer s))
          (<[Z.to_nat (idx (project v)) := OOZ (project v)]> (depthBuffer s))
          (cout s))
  \/ (~ (on_screen (idx (project v))
         /\ OOZ (project v) > depthAt s (idx (project v)))
      /\ writeVertex v c s = s).
Proof.
  destruct (depthTest (project v) s) eqn:Ht.
  - apply depthTest_spec in Ht. destruct Ht as [Hon Hgt].
    left. auto using writeVertex_hit.
  - right. apply not_true_iff_false in Ht. rewrite depthTest_spec in Ht.
    auto using writeVertex_miss.
Qed.

Lemma writeVertex_angles (v : Vertex) (c : ascii) (s : State) :
  pitch (writeVertex v c s) = pitch s
  /\ yaw (writeVertex v c s) = yaw s
  /\ roll (writeVertex v c s) = roll s
  /\ cout (writeVertex v c s) = cout s.
Proof.
  unfold writeVertex. destruct (depthTest (project v) s); auto.
Qed.

Lemma writeVertex_wf (v : Vertex) (c : ascii) (s : State) :
  wf s -> wf (writeVertex v c s).
Proof.
  unfold wf, writeVertex. destruct (depthTest (project v) s);
    cbn [frameBuffer depthBuffer]; rewrite ?length_insert; auto.
Qed.

Lemma on_screen_lt (i : Z) :
  on_screen i -> (Z.to_nat i < Z.to_nat SCREEN_SIZE)%nat.
Proof. unfold on_screen. lia. Qed.

(** The cell hit by a successful write holds the new depth and glyph. *)
Lemma writeVertex_hit_cell (v : Vertex) (c : ascii) (s : State) :
  wf s ->
  on_screen (idx (project v)) ->
  OOZ (project v) > depthAt s (idx (project v)) ->
  depthAt (writeVertex v c s) (idx (project v)) = OOZ (project v)
  /\ glyphAt (writeVertex v c s) (idx (project v)) = c.
Proof.
  intros [Hfb Hdb] Hon Hgt. rewrite writeVertex_hit by assumption.
  apply on_screen_lt in Hon.
  unfold depthAt, glyphAt; cbn [frameBuffer depthBuffer].
  rewrite !list_lookup_total_insert_eq by lia. auto.
Qed.

(** Every other cell keeps its depth and glyph. *)
Lemma writeVertex_other_cell (v : Vertex) (c : ascii) (s : State) (i : Z) :
  on_screen i ->
  i <> idx (project v) ->
  depthAt (writeVertex v c s) i = depthAt s i
  /\ glyphAt (writeVertex v c s) i = glyphAt s i.
Proof.
  intros Hon Hne.
  destruct (writeVertex_cases v c s) as [(Hv & _ & ->) | [_ ->]]; [| auto].
  unfold depthAt, glyphAt, on_screen in *; cbn [frameBuffer depthBuffer].
  rewrite !list_lookup_total_insert_ne by lia. auto.
Qed.

(** A write never lowers a stored depth. *)
Lemma writeVertex_depth_mono (v : Vertex) (c : ascii) (s : State) (i : Z) :
  wf s -> on_screen i -> depthAt s i <= depthAt (writeVertex v c s) i.
Proof.
  intros Hwf Hon.
  destruct (Z.eq_dec i (idx (project v))) as [-> | Hne].
  - destruct (writeVertex_cases v c s) as [(_ & Hgt & _) | [_ ->]]; [| lra].
    destruct (writeVertex_hit_cell v c s Hwf Hon Hgt) as [-> _]. lra.
  - destruct (writeVertex_other_cell v c s i Hon Hne) as [-> _]. lra.
Qed.

(** After a write, the stored depth of its cell is at least its depth. *)
Lemma writeVertex_depth_bound (v : Vertex) (c : ascii) (s : State) :
  wf s ->
  on_screen (idx (project v)) ->
  OOZ (project v) <= depthAt (writeVertex v c s) (idx (project v)).
Proof.
  intros Hwf Hon.
  destruct (writeVertex_cases v c s) as [(_ & Hgt & _) | [Hno ->]].
  - destruct (writeVertex_hit_cell v c s Hwf Hon Hgt) as [-> _]. lra.
  - apply Rnot_gt_le. tauto.
Qed.

(** C5: a vertex whose cell index [idx] is outside [0, SCREEN_SIZE) leaves
    the whole state as it was: frame buffer, depth buffer, angles and
    output. *)
Theorem writeVertex_off_screen (v : Vertex) (c : ascii) (s : State) :
  ~ (0 <= idx (project v) < SCREEN_SIZE)%Z ->
  writeVertex v c s = s
  /\ frameBuffer (writeVertex v c s) = frameBuffer s
  /\ depthBuffer (writeVertex v c s) = depthBuffer s.
Proof.
  intros Hoff.
  assert (H : writeVertex v c s = s).
  { apply writeVertex_miss. unfold on_screen. tauto. }
  rewrite H. auto.
Qed.

Lemma project_vertex_above : idx (project vertex_above) = (-22425)%Z.
Proof.
  rewrite project_idx, project_xProjection, project_yProjection.
  unfold vertex_above, SCREEN_DISTANCE, Z_OFFSET; cbn [x y z].
  rewrite (static_cast_int_pos _ 0), (static_cast_int_neg _ (-175));
    [reflexivity | lia | lra | lia | lra].
Qed.

(** [writeVertex_off_screen] at the vertex (0, 100, 0), whose cell index is
    -22425, written with the glyph [@] at program start. *)
Lemma writeVertex_off_screen_witness :
  ~ (0 <= idx (project vertex_above) < SCREEN_SIZE)%Z
  /\ writeVertex vertex_above "@" initial_state = initial_state
  /\ frameBuffer (writeVertex vertex_above "@" initial_state)
     = frameBuffer initial_state
  /\ depthBuffer (writeVertex vertex_above "@" initial_state)
     = depthBuffer initial_state.
Proof.
  assert (H : ~ (0 <= idx (project vertex_above) < SCREEN_SIZE)%Z)
    by (rewrite project_vertex_above; lia).
  split; [exact H |].
  exact (writeVertex_off_screen vertex_above "@" initial_state H).
Defined.

(** ** Cleared canvas *)

Lemma clearBuffers_wf (s : State) : wf s -> wf (clearBuffers s).
Proof.
  unfold wf, clearBuffers, fill; cbn [frameBuffer depthBuffer].
  rewrite !length_replicate. auto.
Qed.

Lemma clearBuffers_cell (s : State) (i : Z) :
  wf s -> on_screen i ->
  depthAt (clearBuffers s) i = 0 /\ glyphAt (clearBuffers s) i = blank.
Proof.
  intros [Hfb Hdb] Hon. apply on_screen_lt in Hon.
  unfold depthAt, glyphAt, clearBuffers, fill; cbn [frameBuffer depthBuffer].
  rewrite !lookup_total_replicate_2 by lia. auto.
Qed.

Lemma initial_state_wf : wf initial_state.
Proof.
  unfold wf, initial_state; cbn [frameBuffer depthBuffer].
  rewrite !length_replicate. auto.
Qed.

Lemma cleared_state_wf : wf cleared_state.
Proof. apply clearBuffers_wf, initial_state_wf. Qed.

(** ** Sequences of writes *)

Lemma writeAll_cons (w : Vertex * ascii) (ws : list (Vertex * ascii))
  (s : State) :
  writeAll (w :: ws) s = writeAll ws (writeVertex (fst w) (snd w) s).
Proof. reflexivity. Qed.

Lemma writeAll_app (ws1 ws2 : list (Vertex * ascii)) (s : State) :
  writeAll (ws1 ++ ws2) s = writeAll ws2 (writeAll ws1 s).
Proof. apply fold_left_app. Qed.

Lemma writeAll_wf (ws : list (Vertex * ascii)) (s : State) :
  wf s -> wf (writeAll ws s).
Proof.
  revert s. induction ws as [| w ws IH]; intros s Hwf; [exact Hwf |].
  rewrite writeAll_cons. apply IH, writeVertex_wf, Hwf.
Qed.

Lemma writeAll_angles (ws : list (Vertex * ascii)) (s : State) :
  pitch (writeAll ws s) = pitch s
  /\ yaw (writeAll ws s) = yaw s
  /\ roll (writeAll ws s) = roll s
  /\ cout (writeAll ws s) = cout s.
Proof.
  revert s. induction ws as [| w ws IH]; intros s; [auto |].
  rewrite writeAll_cons.
  destruct (IH (writeVertex (fst w) (snd w) s)) as (-> & -> & -> & ->).
  apply writeVertex_angles.
Qed.

Lemma writeAll_depth_mono (ws : list (Vertex * ascii)) (s : State) (i : Z) :
  wf s -> on_screen i -> depthAt s i <= depthAt (writeAll ws s) i.
Proof.
  revert s. induction ws as [| w ws IH]; intros s Hwf Hon; [cbn; lra |].
  rewrite writeAll_cons.
  pose proof (writeVertex_depth_mono (fst w) (snd w) s i Hwf Hon).
  pose proof (IH _ (writeVertex_wf (fst w) (snd w) s Hwf) Hon).
  lra.
Qed.

(** The stored depth of a cell bounds the depth of every write aimed at
    it. *)
Lemma writeAll_depth_bound (ws : list (Vertex * ascii)) (s : State)
  (v : Vertex) (c : ascii) :
  wf s -> In (v, c) ws -> on_screen (idx (project v)) ->
  OOZ (project v) <= depthAt (writeAll ws s) (idx (project v)).
Proof.
  revert s. induction ws as [| w ws IH]; intros s Hwf Hin Hon;
    [destruct Hin |].
  rewrite writeAll_cons.
  pose proof (writeVertex_wf (fst w) (snd w) s Hwf) as Hwf'.
  destruct Hin as [-> | Hin]; [| auto].
  cbn [fst snd] in *.
  pose proof (writeVertex_depth_bound v c s Hwf Hon).
  pose proof (writeAll_depth_mono ws _ _ Hwf' Hon).
  lra.
Qed.

(** A cell either still holds what it held before the writes, or holds the
    depth and glyph of one of the writes aimed at it, nearer than what it
    held before. *)
Lemma writeAll_cell_origin (ws : list (Vertex * ascii)) (s : State) (i : Z) :
  wf s -> on_screen i ->
  (depthAt (writeAll ws s) i = depthAt s i
   /\ glyphAt (writeAll ws s) i = glyphAt s i)
  \/ (exists v c,
        In (v, c) ws /\ idx (project v) = i
        /\ depthAt s i < OOZ (project v)
        /\ depthAt (writeAll ws s) i = OOZ (project v)
        /\ glyphAt (writeAll ws s) i = c).
Proof.
  revert s. induction ws as [| [v c] ws IH]; intros s Hwf Hon; [left; auto |].
  rewrite writeAll_cons; cbn [fst snd].
  pose proof (writeVertex_wf v c s Hwf) as Hwf'.
  pose proof (writeVertex_depth_mono v c s i Hwf Hon) as Hmono.
  destruct (IH _ Hwf' Hon) as [[Hd Hg] | (v' & c' & Hin & Hi & Hlt & Hd & Hg)].
  - rewrite Hd, Hg.
    destruct (Z.eq_dec i (idx (project v))) as [-> | Hne].
    + destruct (writeVertex_cases v c s) as [(_ & Hgt & _) | [_ ->]];
        [| left; auto].
      destruct (writeVertex_hit_cell v c s Hwf Hon Hgt) as [Hd' Hg'].
      right. exists v, c. rewrite Hd', Hg'.
      repeat split; auto. now left.
    + left. apply writeVertex_other_cell; assumption.
  - right. exists v', c'. repeat split; auto; [now right | lra].
Qed.

(** For two writes aimed at one cell, the nearer one passing the depth
    test, the outcome is that of the nearer write alone, in either order. *)
Lemma writeVertex_nearer_wins (A B : Vertex) (cA cB : ascii) (s : State) :
  wf s ->
  idx (project A) = idx (project B) ->
  on_screen (idx (project A)) ->
  OOZ (project A) > OOZ (project B) ->
  OOZ (project A) > depthAt s (idx (project A)) ->
  writeVertex B cB (writeVertex A cA s) = writeVertex A cA s
  /\ writeVertex A cA (writeVertex B cB s) = writeVertex A cA s.
Proof.
  intros Hwf Hidx Hon HAB HA.
  destruct (writeVertex_hit_cell A cA s Hwf Hon HA) as [HdA _].
  split.
  - apply writeVertex_miss. rewrite <- Hidx, HdA. lra.
  - destruct (writeVertex_cases B cB s) as [(HonB & HB & HwB) | [_ ->]];
      [| reflexivity].
    pose proof (writeVertex_wf B cB s Hwf) as Hwf'.
    destruct (writeVertex_hit_cell B cB s Hwf HonB HB) as [HdB _].
    rewrite (writeVertex_hit A cA (writeVertex B cB s))
      by (rewrite ?Hidx, ?HdB; auto; lra).
    rewrite (writeVertex_hit A cA s) by assumption.
    rewrite HwB, <- Hidx; cbn [pitch yaw roll frameBuffer depthBuffer cout].
    now rewrite !list_insert_insert_eq.
Qed.

(** A vertex on the optical axis projects to the centre of the screen. *)
Lemma project_on_axis (z0 : R) :
  project (mkVertex 0 0 z0)
  = mkProjection (1 / (z0 + Z_OFFSET)) 75 25 centre_cell.
Proof.
  unfold project; cbn [x y z].
  rewrite static_cast_int_X_OFFSET, static_cast_int_Y_OFFSET.
  replace (IZR SCREEN_DISTANCE * (1 / (z0 + Z_OFFSET)) * 0 * 2)
    with (IZR 0) by ring.
  replace (IZR SCREEN_DISTANCE * (1 / (z0 + Z_OFFSET)) * - 0)
    with (IZR 0) by ring.
  rewrite static_cast_int_IZR. reflexivity.
Qed.

Lemma centre_cell_on_screen : on_screen centre_cell.
Proof.
  unfold on_screen, centre_cell, SCREEN_SIZE, SCREEN_WIDTH, SCREEN_HEIGHT.
  lia.
Qed.

(** C4, as the code has it.  After a clear and any sequence of writes, the
    depth stored in a cell bounds the inverse depth of every write aimed at
    that cell, and the cell is either still blank with depth zero (no write
    aimed at it was nearer than the zero sentinel) or holds the glyph and
    the inverse depth of a write aimed at it, which is then the largest and
    is positive; so when every write has a positive inverse depth, as the
    sampled points of the sphere have, a cell that some write was aimed at
    holds the glyph of a write with the largest inverse depth among them.
    A single write whose inverse depth is strictly greater
    than the stored depth of its on-screen cell overwrites depth and glyph;
    any other write leaves the state as it was.  For two writes [A] and [B]
    aimed at one cell, [A] strictly nearer than [B] and than what the cell
    holds, the glyph of [A] is in the cell whichever is written first. *)
Theorem depth_test_nearest_wins
  (s0 : State) (ws : list (Vertex * ascii)) (i : Z)
  (s : State) (A B : Vertex) (cA cB : ascii) :
  wf s0 -> on_screen i -> wf s ->
  let s' := writeAll ws (clearBuffers s0) in
  (forall v c, In (v, c) ws -> idx (project v) = i ->
               OOZ (project v) <= depthAt s' i)
  /\ ((depthAt s' i = 0 /\ glyphAt s' i = blank)
      \/ (exists v c,
            In (v, c) ws /\ idx (project v) = i /\ 0 < OOZ (project v)
            /\ depthAt s' i = OOZ (project v) /\ glyphAt s' i = c))
  /\ (Forall (fun w => 0 < OOZ (project (fst w))) ws ->
      (exists v c, In (v, c) ws /\ idx (project v) = i) ->
      exists v c,
        In (v, c) ws /\ idx (project v) = i
        /\ depthAt s' i = OOZ (project v) /\ glyphAt s' i = c)
  /\ (on_screen (idx (project A)) ->
      OOZ (project A) > depthAt s (idx (project A)) ->
      depthAt (writeVertex A cA s) (idx (project A)) = OOZ (project A)
      /\ glyphAt (writeVertex A cA s) (idx (project A)) = cA)
  /\ (~ (on_screen (idx (project A))
         /\ OOZ (project A) > depthAt s (idx (project A))) ->
      writeVertex A cA s = s)
  /\ (idx (project A) = idx (project B) ->
      on_screen (idx (project A)) ->
      OOZ (project A) > OOZ (project B) ->
      OOZ (project A) > depthAt s (idx (project A)) ->
      glyphAt (writeVertex B cB (writeVertex A cA s)) (idx (project A)) = cA
      /\ glyphAt (writeVertex A cA (writeVertex B cB s)) (idx (project A))
         = cA
      /\ writeVertex B cB (writeVertex A cA s)
         = writeVertex A cA (writeVertex B cB s)).
Proof.
  intros Hwf0 Hon Hwf s'.
  pose proof (clearBuffers_wf s0 Hwf0) as Hwfc.
  destruct (clearBuffers_cell s0 i Hwf0 Hon) as [Hd0 Hg0].
  assert (Hbound : forall v c, In (v, c) ws -> idx (project v) = i ->
                                OOZ (project v) <= depthAt s' i).
  { intros v c Hin Hi. subst i. apply (writeAll_depth_bound ws _ v c); auto. }
  assert (Horigin :
            (depthAt s' i = 0 /\ glyphAt s' i = blank)
            \/ (exists v c,
                  In (v, c) ws /\ idx (project v) = i /\ 0 < OOZ (project v)
                  /\ depthAt s' i = OOZ (project v) /\ glyphAt s' i = c)).
  { destruct (writeAll_cell_origin ws _ i Hwfc Hon)
      as [[Hd Hg] | (v & c & Hin & Hi & Hlt & Hd & Hg)].
    - left. fold s' in Hd, Hg. rewrite Hd, Hg. auto.
    - right. exists v, c. rewrite Hd0 in Hlt. auto. }
  split; [exact Hbound |]. split; [exact Horigin |].
  split; [| split; [| split]].
  - intros Hpos (v & c & Hin & Hi).
    destruct Horigin as [[Hd _] | (v' & c' & Hin' & Hi' & _ & Hd' & Hg')].
    + rewrite List.Forall_forall in Hpos. specialize (Hpos _ Hin).
      cbn [fst] in Hpos. pose proof (Hbound v c Hin Hi). lra.
    + exists v', c'. auto.
  - intros HonA HA. apply writeVertex_hit_cell; assumption.
  - apply writeVertex_miss.
  - intros Hidx HonA HAB HA.
    destruct (writeVertex_nearer_wins A B cA cB s Hwf Hidx HonA HAB HA)
      as [H1 H2].
    rewrite H1, H2.
    destruct (writeVertex_hit_cell A cA s Hwf HonA HA) as [_ Hg]. auto.
Qed.

(** C4, as stated, fails for a point behind the camera plane.  After a
    clear, the vertex (0, 0, -30) with glyph [@] is the only write aimed at
    the centre cell, with inverse depth -1/10; it is not nearer than the
    zero sentinel, so the cell stays blank.  Writing (0, 0, -25) with glyph
    [$] and inverse depth -1/5 after it, the first is the strictly nearer
    of the two, and its glyph is still not in the cell. *)
Lemma depth_test_behind_camera :
  idx (project vertex_behind) = centre_cell
  /\ idx (project vertex_behind_far) = centre_cell
  /\ OOZ (project vertex_behind) > OOZ (project vertex_behind_far)
  /\ glyphAt (writeVertex vertex_behind "@" cleared_state) centre_cell
     <> "@"%char
  /\ glyphAt
       (writeVertex vertex_behind_far "$"
          (writeVertex vertex_behind "@" cleared_state)) centre_cell
     <> "@"%char.
Proof.
  unfold vertex_behind, vertex_behind_far.
  destruct (clearBuffers_cell initial_state centre_cell initial_state_wf
              centre_cell_on_screen) as [Hd Hg].
  fold cleared_state in Hd, Hg.
  assert (HA : writeVertex (mkVertex 0 0 (-30)) "@" cleared_state
               = cleared_state).
  { apply writeVertex_miss. rewrite project_on_axis; cbn [idx OOZ].
    rewrite Hd. unfold Z_OFFSET. lra. }
  assert (HB : writeVertex (mkVertex 0 0 (-25)) "$" cleared_state
               = cleared_state).
  { apply writeVertex_miss. rewrite project_on_axis; cbn [idx OOZ].
    rewrite Hd. unfold Z_OFFSET. lra. }
  rewrite HA, HB, Hg, !project_on_axis; cbn [idx OOZ].
  repeat split; try discriminate.
  unfold Z_OFFSET. lra.
Qed.

(** [depth_test_nearest_wins] on the cleared canvas of program start, with
    the writes (0, 0, 20) with glyph [$] and (0, 0, 0) with glyph [@], both
    aimed at the centre cell, the second one nearer: the cell shows [@] in
    either order. *)
Lemma depth_test_nearest_wins_witness :
  wf initial_state /\ on_screen centre_cell /\ wf cleared_state
  /\ glyphAt
       (writeVertex vertex_far "$" (writeVertex vertex_near "@" cleared_state))
       centre_cell = "@"%char
  /\ glyphAt
       (writeVertex vertex_near "@" (writeVertex vertex_far "$" cleared_state))
       centre_cell = "@"%char.
Proof.
  pose proof (depth_test_nearest_wins initial_state
                [(vertex_far, "$"%char); (vertex_near, "@"%char)]
                centre_cell cleared_state vertex_near vertex_far "@" "$"
                initial_state_wf centre_cell_on_screen cleared_state_wf)
    as (_ & _ & _ & _ & _ & Horder).
  unfold vertex_near, vertex_far in *.
  rewrite !project_on_axis in Horder; cbn [idx OOZ] in Horder.
  destruct (clearBuffers_cell initial_state centre_cell initial_state_wf
              centre_cell_on_screen) as [Hd _].
  fold cleared_state in Hd. rewrite Hd in Horder.
  destruct Horder as (H1 & H2 & _);
    [reflexivity | exact centre_cell_on_screen
     | unfold Z_OFFSET; lra | unfold Z_OFFSET; lra |].
  exact (conj initial_state_wf
           (conj centre_cell_on_screen
              (conj cleared_state_wf (conj H1 H2)))).
Defined.

(** ** The loop of [initRing] *)

Lemma initRing_loop_continue (yawOffset : R) (c : ascii) (x0 : R) (s : State) :
  x0 <= RADIUS ->
  initRing_loop yawOffset c x0 s
  = initRing_loop yawOffset c (x0 + RING_STEP) (initRing_body yawOffset c x0 s).
Proof.
  intros Hx. rewrite initRing_loop_equation_1.
  destruct (Rle_dec x0 RADIUS) as [Hle | Hno]; [reflexivity | contradiction].
Qed.

Lemma initRing_loop_exit (yawOffset : R) (c : ascii) (x0 : R) (s : State) :
  ~ x0 <= RADIUS -> initRing_loop yawOffset c x0 s = s.
Proof.
  intros Hx. rewrite initRing_loop_equation_1.
  destruct (Rle_dec x0 RADIUS) as [Hle | Hno]; [contradiction | reflexivity].
Qed.

Lemma ring_turns_continue (x0 : R) :
  x0 <= RADIUS -> ring_turns x0 = S (ring_turns (x0 + RING_STEP)).
Proof.
  intros Hx. unfold ring_turns.
  replace ((RADIUS - (x0 + RING_STEP)) / RING_STEP)
    with ((RADIUS - x0) / RING_STEP - 1) by (unfold RING_STEP; field; lra).
  set (q := (RADIUS - x0) / RING_STEP).
  assert (Hq : 0 <= q) by (apply Rmult_le_pos; unfold RING_STEP; lra).
  destruct (archimed q) as [Hu1 Hu2].
  assert (Hup : up q = (up (q - 1) + 1)%Z).
  { symmetry.
    apply tech_up; rewrite plus_IZR; destruct (archimed (q - 1)); lra. }
  assert (Hpos : (0 < up q)%Z) by (apply lt_IZR; lra).
  lia.
Qed.

Lemma ring_turns_exit (x0 : R) : ~ x0 <= RADIUS -> ring_turns x0 = 0%nat.
Proof.
  intros Hx. apply Rnot_le_lt in Hx. unfold ring_turns.
  set (q := (RADIUS - x0) / RING_STEP).
  assert (Hq : q < 0).
  { unfold q, Rdiv.
    assert (Hs : 0 < / RING_STEP)
      by (apply Rinv_0_lt_compat; unfold RING_STEP; lra).
    nra. }
  destruct (archimed q) as [Hu1 Hu2].
  assert (Hup : (up q < 1)%Z) by (apply lt_IZR; lra).
  lia.
Qed.

(** The loop is entered with counter [-RADIUS] and turns 801 times. *)
Lemma ring_turns_start : ring_turns (- RADIUS) = 801%nat.
Proof.
  unfold ring_turns.
  replace ((RADIUS - - RADIUS) / RING_STEP) with (IZR 800)
    by (unfold RADIUS, RING_STEP; lra).
  rewrite <- (tech_up (IZR 800) 801); [reflexivity | lra | lra].
Qed.

Lemma initRing_body_writes (yawOffset : R) (c : ascii) (x0 : R) (s : State) :
  initRing_body yawOffset c x0 s
  = writeAll
      [(ring_vertex yawOffset (pitch s) (yaw s) (roll s) x0
          (sqrt (RADIUS * RADIUS - x0 * x0)), c);
       (ring_vertex yawOffset (pitch s) (yaw s) (roll s) x0
          (- sqrt (RADIUS * RADIUS - x0 * x0)), c)]
      s.
Proof.
  unfold initRing_body, writeAll, ring_vertex; cbn [fold_left fst snd].
  set (s1 := writeVertex _ c s).
  destruct (writeVertex_angles
              (rotate (rotate (mkVertex x0 (sqrt (RADIUS * RADIUS - x0 * x0)) 0)
                         0 yawOffset 0) (pitch s) (yaw s) (roll s)) c s)
    as (Hp & Hy & Hr & _).
  fold s1 in Hp, Hy, Hr. rewrite Hp, Hy, Hr. reflexivity.
Qed.

Lemma ring_writes_continue (yawOffset : R) (c : ascii) (p q r x0 : R) :
  x0 <= RADIUS ->
  ring_writes yawOffset c p q r x0
  = [(ring_vertex yawOffset p q r x0 (sqrt (RADIUS * RADIUS - x0 * x0)), c);
     (ring_vertex yawOffset p q r x0 (- sqrt (RADIUS * RADIUS - x0 * x0)), c)]
    ++ ring_writes yawOffset c p q r (x0 + RING_STEP).
Proof.
  intros Hx. unfold ring_writes.
  rewrite (ring_turns_continue x0 Hx). reflexivity.
Qed.

Lemma ring_writes_exit (yawOffset : R) (c : ascii) (p q r x0 : R) :
  ~ x0 <= RADIUS -> ring_writes yawOffset c p q r x0 = [].
Proof.
  intros Hx. unfold ring_writes. rewrite (ring_turns_exit x0 Hx). reflexivity.
Qed.

(** The loop performs exactly the writes listed by [ring_writes]. *)
Lemma initRing_loop_writes (yawOffset : R) (c : ascii) (n : nat) :
  forall (x0 : R) (s : State),
    ring_turns x0 = n ->
    initRing_loop yawOffset c x0 s
    = writeAll (ring_writes yawOffset c (pitch s) (yaw s) (roll s) x0) s.
Proof.
  induction n as [| n IH]; intros x0 s Hn.
  - destruct (Rle_dec x0 RADIUS) as [Hx | Hx].
    + rewrite (ring_turns_continue x0 Hx) in Hn. discriminate.
    + rewrite initRing_loop_exit, ring_writes_exit by assumption.
      reflexivity.
  - destruct (Rle_dec x0 RADIUS) as [Hx | Hx].
    + rewrite (ring_turns_continue x0 Hx) in Hn. injection Hn as Hn.
      rewrite initRing_loop_continue, ring_writes_continue by assumption.
      rewrite writeAll_app, <- initRing_body_writes.
      rewrite (IH _ _ Hn).
      rewrite initRing_body_writes.
      destruct (writeAll_angles
                  [(ring_vertex yawOffset (pitch s) (yaw s) (roll s) x0
                      (sqrt (RADIUS * RADIUS - x0 * x0)), c);
                   (ring_vertex yawOffset (pitch s) (yaw s) (roll s) x0
                      (- sqrt (RADIUS * RADIUS - x0 * x0)), c)] s)
        as (-> & -> & -> & _).
      reflexivity.
    + rewrite (ring_turns_exit x0 Hx) in Hn. discriminate.
Qed.

Lemma initRing_writes (yawOffset : R) (c : ascii) (s : State) :
  initRing yawOffset c s
  = writeAll (ring_writes yawOffset c (pitch s) (yaw s) (roll s) (- RADIUS)) s.
Proof.
  unfold initRing.
  now apply (initRing_loop_writes _ _ 801), ring_turns_start.
Qed.

(** [initSphere] performs exactly the writes listed by [sphere_writes]. *)
Lemma initSphere_writes (s : State) :
  initSphere s = writeAll (sphere_writes (pitch s) (yaw s) (roll s)) s.
Proof.
  unfold initSphere, sphere_writes.
  rewrite !writeAll_app, !initRing_writes.
  repeat match goal with
  | |- context [pitch (writeAll ?ws ?t)] =>
      destruct (writeAll_angles ws t) as (-> & -> & -> & _)
  end.
  reflexivity.
Qed.

(** ** The sampled points lie on the sphere, in front of the camera *)

Lemma ring_counter_range (n : nat) :
  forall x0 : R,
    - RADIUS <= x0 -> (n <= ring_turns x0)%nat ->
    Forall (fun c => - RADIUS <= c <= RADIUS) (ring_counter n x0).
Proof.
  induction n as [| n IH]; intros x0 Hlow Hn; [constructor |].
  destruct (Rle_dec x0 RADIUS) as [Hx | Hx].
  - rewrite (ring_turns_continue x0 Hx) in Hn.
    cbn [ring_counter]. constructor; [lra |].
    apply IH; [unfold RING_STEP; lra | lia].
  - rewrite (ring_turns_exit x0 Hx) in Hn. lia.
Qed.

Lemma ring_vertex_on_sphere (yawOffset p q r c y0 : R) :
  - RADIUS <= c <= RADIUS ->
  y0 = sqrt (RADIUS * RADIUS - c * c)
  \/ y0 = - sqrt (RADIUS * RADIUS - c * c) ->
  norm2 (ring_vertex yawOffset p q r c y0) = RADIUS * RADIUS.
Proof.
  intros Hc Hy. unfold ring_vertex. rewrite !rotate_norm2.
  unfold norm2; cbn [x y z].
  assert (Hpos : 0 <= RADIUS * RADIUS - c * c) by (unfold RADIUS in *; nra).
  pose proof (sqrt_sqrt _ Hpos) as Hs.
  destruct Hy as [-> | ->]; lra.
Qed.

Lemma on_sphere_in_front (v : Vertex) :
  norm2 v = RADIUS * RADIUS ->
  10 <= z v + Z_OFFSET <= 30
  /\ z v + Z_OFFSET <> 0
  /\ 0 < OOZ (project v).
Proof.
  unfold norm2, RADIUS, Z_OFFSET. intros Hn.
  assert (Hz : -10 <= z v <= 10) by nra.
  rewrite project_OOZ. unfold Z_OFFSET.
  split; [lra |]. split; [lra |].
  apply Rdiv_lt_0_compat; lra.
Qed.

Lemma ring_writes_on_sphere (yawOffset : R) (c : ascii) (p q r : R) :
  Forall (fun w => norm2 (fst w) = RADIUS * RADIUS)
    (ring_writes yawOffset c p q r (- RADIUS)).
Proof.
  unfold ring_writes. apply List.Forall_forall. intros w Hin.
  apply in_flat_map in Hin. destruct Hin as (c0 & Hc0 & Hw).
  pose proof (ring_counter_range (ring_turns (- RADIUS)) (- RADIUS)
                (Rle_refl _) (le_n _)) as Hrange.
  rewrite List.Forall_forall in Hrange. specialize (Hrange c0 Hc0).
  destruct Hw as [<- | [<- | []]]; cbn [fst];
    apply ring_vertex_on_sphere; auto.
Qed.

Lemma length_flat_map_pairs {A B : Type} (f g : A -> B) (l : list A) :
  length (flat_map (fun a => [f a; g a]) l) = (2 * length l)%nat.
Proof.
  induction l as [| a l IH]; [reflexivity |].
  cbn [flat_map app length]. rewrite IH. lia.
Qed.

Lemma length_ring_counter (n : nat) (x0 : R) : length (ring_counter n x0) = n.
Proof.
  revert x0. induction n as [| n IH]; intros x0; [reflexivity |].
  cbn [ring_counter length]. now rewrite IH.
Qed.

Lemma length_ring_writes (yawOffset : R) (c : ascii) (p q r : R) :
  length (ring_writes yawOffset c p q r (- RADIUS)) = 1602%nat.
Proof.
  unfold ring_writes.
  rewrite length_flat_map_pairs, length_ring_counter, ring_turns_start.
  reflexivity.
Qed.

(** C6: [initSphere] hands to [writeVertex] exactly the 4 x 801 x 2
    vertices of [sphere_writes]; each of them lies on the sphere of radius
    10 about the origin, so its translated depth [z + Z_OFFSET] is at least
    10 (and at most 30), is not zero, and its inverse depth is strictly
    positive. *)
Theorem sphere_points_in_front (s : State) :
  initSphere s = writeAll (sphere_writes (pitch s) (yaw s) (roll s)) s
  /\ length (sphere_writes (pitch s) (yaw s) (roll s)) = (4 * 1602)%nat
  /\ Forall
       (fun w =>
          norm2 (fst w) = RADIUS * RADIUS
          /\ 10 <= z (fst w) + Z_OFFSET <= 30
          /\ z (fst w) + Z_OFFSET <> 0
          /\ OOZ (project (fst w)) = 1 / (z (fst w) + Z_OFFSET)
          /\ 0 < OOZ (project (fst w)))
       (sphere_writes (pitch s) (yaw s) (roll s)).
Proof.
  split; [apply initSphere_writes |]. split.
  - unfold sphere_writes. rewrite !length_app, !length_ring_writes.
    reflexivity.
  - unfold sphere_writes. rewrite !Forall_app.
    repeat split;
      (eapply Forall_impl; [apply ring_writes_on_sphere |]);
      intros w Hw; cbn beta;
      destruct (on_sphere_in_front (fst w) Hw) as (H1 & H2 & H3);
      auto using project_OOZ.
Qed.

(** ** Drawing the same geometry again *)

(** Writes that all fail the depth test leave the state as it is. *)
Lemma writeAll_absorbed (ws : list (Vertex * ascii)) (s : State) :
  (forall v c, In (v, c) ws ->
               ~ (on_screen (idx (project v))
                  /\ OOZ (project v) > depthAt s (idx (project v)))) ->
  writeAll ws s = s.
Proof.
  induction ws as [| [v c] ws IH]; intros Habs; [reflexivity |].
  rewrite writeAll_cons; cbn [fst snd].
  rewrite (writeVertex_miss v c s) by (apply (Habs v c); now left).
  apply IH. intros v' c' Hin. apply (Habs v' c'). now right.
Qed.

(** Repeating a sequence of writes changes nothing. *)
Lemma writeAll_idempotent (ws : list (Vertex * ascii)) (s : State) :
  wf s -> writeAll ws (writeAll ws s) = writeAll ws s.
Proof.
  intros Hwf. apply writeAll_absorbed. intros v c Hin [Hon Hgt].
  pose proof (writeAll_depth_bound ws s v c Hwf Hin Hon). lra.
Qed.

(** The canvas after a write depends on the canvas before it only. *)
Lemma writeVertex_canvas_ext (v : Vertex) (c : ascii) (s t : State) :
  canvas s = canvas t ->
  canvas (writeVertex v c s) = canvas (writeVertex v c t).
Proof.
  unfold canvas. intros Heq. injection Heq as Hfb Hdb.
  unfold writeVertex, depthTest. rewrite Hdb.
  destruct (_ && _ && _); cbn [frameBuffer depthBuffer]; congruence.
Qed.

Lemma writeAll_canvas_ext (ws : list (Vertex * ascii)) (s t : State) :
  canvas s = canvas t -> canvas (writeAll ws s) = canvas (writeAll ws t).
Proof.
  revert s t. induction ws as [| w ws IH]; intros s t Heq; [exact Heq |].
  rewrite !writeAll_cons. apply IH, writeVertex_canvas_ext, Heq.
Qed.

Lemma clearBuffers_canvas (s t : State) :
  wf s -> wf t -> canvas (clearBuffers s) = canvas (clearBuffers t).
Proof.
  intros [Hs1 Hs2] [Ht1 Ht2].
  unfold canvas, clearBuffers, fill; cbn [frameBuffer depthBuffer].
  now rewrite Hs1, Hs2, Ht1, Ht2.
Qed.

Lemma initSphere_wf (s : State) : wf s -> wf (initSphere s).
Proof. intros Hwf. rewrite initSphere_writes. now apply writeAll_wf. Qed.

Lemma initSphere_angles (s : State) :
  pitch (initSphere s) = pitch s
  /\ yaw (initSphere s) = yaw s
  /\ roll (initSphere s) = roll s
  /\ cout (initSphere s) = cout s.
Proof. rewrite initSphere_writes. apply writeAll_angles. Qed.

Lemma initSphere_idempotent (s : State) :
  wf s -> initSphere (initSphere s) = initSphere s.
Proof.
  intros Hwf. rewrite (initSphere_writes (initSphere s)).
  destruct (initSphere_angles s) as (-> & -> & -> & _).
  rewrite initSphere_writes. now apply writeAll_idempotent.
Qed.

(** C7: two states with the same animation angles, each cleared and then
    drawn, end with the same canvas; and drawing the sphere a second time
    without advancing the angles changes nothing: the state after the
    second drawing is the state after the first, so every cell keeps its
    glyph and its depth. *)
Theorem render_twice_same_canvas (s1 s2 : State) (i : Z) :
  wf s1 -> wf s2 ->
  pitch s1 = pitch s2 -> yaw s1 = yaw s2 -> roll s1 = roll s2 ->
  canvas (initSphere (clearBuffers s1)) = canvas (initSphere (clearBuffers s2))
  /\ initSphere (initSphere (clearBuffers s1)) = initSphere (clearBuffers s1)
  /\ glyphAt (initSphere (initSphere (clearBuffers s1))) i
     = glyphAt (initSphere (clearBuffers s1)) i
  /\ depthAt (initSphere (initSphere (clearBuffers s1))) i
     = depthAt (initSphere (clearBuffers s1)) i
  /\ initSphere (initSphere s1) = initSphere s1.
Proof.
  intros Hwf1 Hwf2 Hp Hy Hr.
  pose proof (initSphere_idempotent _ (clearBuffers_wf s1 Hwf1)) as Hidem.
  split; [| rewrite Hidem; auto using initSphere_idempotent].
  rewrite !initSphere_writes.
  change (pitch (clearBuffers s1)) with (pitch s1).
  change (yaw (clearBuffers s1)) with (yaw s1).
  change (roll (clearBuffers s1)) with (roll s1).
  change (pitch (clearBuffers s2)) with (pitch s2).
  change (yaw (clearBuffers s2)) with (yaw s2).
  change (roll (clearBuffers s2)) with (roll s2).
  rewrite Hp, Hy, Hr.
  apply writeAll_canvas_ext, clearBuffers_canvas; assumption.
Qed.

(** [render_twice_same_canvas] at program start and at the state reached
    from it by one write in the centre of the screen. *)
Lemma render_twice_same_canvas_witness :
  wf initial_state
  /\ wf (writeVertex vertex_near "@" initial_state)
  /\ canvas (initSphere (clearBuffers initial_state))
     = canvas (initSphere
                 (clearBuffers (writeVertex vertex_near "@" initial_state)))
  /\ initSphere (initSphere (clearBuffers initial_state))
     = initSphere (clearBuffers initial_state).
Proof.
  pose proof (writeVertex_wf vertex_near "@" initial_state initial_state_wf)
    as Hwf2.
  destruct (writeVertex_angles vertex_near "@" initial_state)
    as (Hp & Hy & Hr & _).
  destruct (render_twice_same_canvas initial_state
              (writeVertex vertex_near "@" initial_state) centre_cell
              initial_state_wf Hwf2 (eq_sym Hp) (eq_sym Hy) (eq_sym Hr))
    as (H1 & H2 & _).
  exact (conj initial_state_wf (conj Hwf2 (conj H1 H2))).
Defined.

(** ** Animation angles *)

Lemma frame_unfold (s : State) :
  frame s
  = updateAngles
      (renderFramebuffer (initSphere (resetCursor (clearBuffers s)))).
Proof. reflexivity. Qed.

Lemma frame_angles (s : State) :
  pitch (frame s) = pitch s + PITCH_DELTA
  /\ yaw (frame s) = yaw s + YAW_DELTA
  /\ roll (frame s) = roll s + ROLL_DELTA.
Proof.
  rewrite frame_unfold.
  unfold updateAngles, renderFramebuffer; cbn [pitch yaw roll].
  destruct (initSphere_angles (resetCursor (clearBuffers s)))
    as (-> & -> & -> & _).
  cbn [pitch yaw roll resetCursor clearBuffers]. auto.
Qed.


(** ** Horizontal overflow *)

Lemma project_vertex_right :
  project vertex_right = mkProjection (1 / 20) 215 25 wrapped_cell.
Proof.
  unfold project, vertex_right; cbn [x y z].
  rewrite static_cast_int_X_OFFSET, static_cast_int_Y_OFFSET.
  unfold SCREEN_DISTANCE, Z_OFFSET.
  rewrite (static_cast_int_pos _ 140), (static_cast_int_pos _ 0);
    [| lia | lra | lia | lra].
  f_equal. lra.
Qed.

(** C10: the vertex (40, 0, 0), a rotated point with [z + Z_OFFSET = 20],
    projects to column 215, outside [0, SCREEN_WIDTH), of row 25; its cell
    index 3965 is inside [0, SCREEN_SIZE), the write passes the bounds
    check, and on a cleared canvas its glyph lands in column 65 of row 26,
    the row below. *)
Theorem horizontal_overflow_wraps :
  exists v : Vertex,
    v = rotate v 0 0 0
    /\ z v + Z_OFFSET <> 0
    /\ ~ (0 <= xProjection (project v) < SCREEN_WIDTH)%Z
    /\ (0 <= yProjection (project v) < SCREEN_HEIGHT)%Z
    /\ (0 <= idx (project v) < SCREEN_SIZE)%Z
    /\ writeVertex v "@" cleared_state <> cleared_state
    /\ glyphAt cleared_state (idx (project v)) = blank
    /\ glyphAt (writeVertex v "@" cleared_state) (idx (project v)) = "@"%char
    /\ (idx (project v) / SCREEN_WIDTH = yProjection (project v) + 1)%Z
    /\ (idx (project v) mod SCREEN_WIDTH
        = xProjection (project v) - SCREEN_WIDTH)%Z.
Proof.
  exists vertex_right.
  assert (Hon : on_screen wrapped_cell)
    by (unfold on_screen, wrapped_cell, SCREEN_SIZE, SCREEN_WIDTH,
          SCREEN_HEIGHT; lia).
  destruct (clearBuffers_cell initial_state wrapped_cell initial_state_wf Hon)
    as [Hd Hg].
  fold cleared_state in Hd, Hg.
  assert (Hhit : glyphAt (writeVertex vertex_right "@" cleared_state)
                   wrapped_cell = "@"%char).
  { pose proof (writeVertex_hit_cell vertex_right "@" cleared_state
                  cleared_state_wf) as H.
    rewrite project_vertex_right in H; cbn [idx OOZ] in H.
    apply H; [exact Hon | rewrite Hd; lra]. }
  rewrite project_vertex_right; cbn [idx OOZ xProjection yProjection].
  split.
  { unfold vertex_right, rotate, rotateCalcX, rotateCalcY, rotateCalcZ;
      cbn [x y z].
    rewrite sin_0, cos_0. f_equal; ring. }
  split; [unfold vertex_right, Z_OFFSET; cbn [z]; lra |].
  split; [unfold SCREEN_WIDTH; lia |].
  split; [unfold SCREEN_HEIGHT; lia |].
  split; [exact Hon |].
  split.
  { intros Heq. rewrite Heq, Hg in Hhit. discriminate. }
  split; [exact Hg |].
  split; [exact Hhit |].
  split; reflexivity.
Qed.

(** ** Flushing the frame buffer *)

Lemma fold_left_snoc {A B : Type} (f : A -> B) (l : list A) (acc : list B) :
  fold_left (fun out a => out ++ [f a]) l acc = acc ++ map f l.
Proof.
  revert acc. induction l as [| a l IH]; intros acc; cbn [fold_left map].
  - now rewrite app_nil_r.
  - rewrite IH, <- app_assoc. reflexivity.
Qed.

(** The character printed for position [i] (line 94). *)
Lemma printed_map_row (fb : list ascii) (r : Z) :
  (0 <= r)%Z ->
  map (fun i => if (Z.rem i SCREEN_WIDTH =? 0)%Z then newline
                else fb !!! Z.to_nat i)
    (seqZ (r * SCREEN_WIDTH) SCREEN_WIDTH)
  = printed_row fb r.
Proof.
  intros Hr. unfold printed_row.
  rewrite (seqZ_cons (r * SCREEN_WIDTH) SCREEN_WIDTH)
    by (unfold SCREEN_WIDTH; lia).
  cbn [map]. rewrite Z.rem_mul by (unfold SCREEN_WIDTH; lia).
  cbn [Z.eqb]. f_equal.
  replace (Z.succ (r * SCREEN_WIDTH)) with (r * SCREEN_WIDTH + 1)%Z by lia.
  replace (Z.pred SCREEN_WIDTH) with (SCREEN_WIDTH - 1)%Z by lia.
  rewrite <- (fmap_add_seqZ (r * SCREEN_WIDTH) 1 (SCREEN_WIDTH - 1)).
  change (Z.add (r * SCREEN_WIDTH) <$> seqZ 1 (SCREEN_WIDTH - 1))
    with (map (Z.add (r * SCREEN_WIDTH)) (seqZ 1 (SCREEN_WIDTH - 1))).
  rewrite map_map. apply map_ext_in. intros c Hc.
  apply list_elem_of_In, elem_of_seqZ in Hc.
  assert (Hrem : Z.rem (r * SCREEN_WIDTH + c) SCREEN_WIDTH = c).
  { rewrite Z.rem_mod_nonneg by (unfold SCREEN_WIDTH in *; lia).
    rewrite Z.add_comm, Z.mod_add by (unfold SCREEN_WIDTH; lia).
    apply Z.mod_small. lia. }
  rewrite Hrem. destruct (Z.eqb_spec c 0) as [-> | _]; [lia | reflexivity].
Qed.

Lemma printed_map_rows (fb : list ascii) (h : nat) :
  map (fun i => if (Z.rem i SCREEN_WIDTH =? 0)%Z then newline
                else fb !!! Z.to_nat i)
    (seqZ 0 (Z.of_nat h * SCREEN_WIDTH))
  = flat_map (printed_row fb) (seqZ 0 (Z.of_nat h)).
Proof.
  induction h as [| h IH]; [reflexivity |].
  rewrite seqZ_S, flat_map_app; cbn [flat_map]. rewrite app_nil_r, <- IH.
  replace (Z.of_nat (S h) * SCREEN_WIDTH)%Z
    with (Z.of_nat h * SCREEN_WIDTH + SCREEN_WIDTH)%Z by lia.
  rewrite seqZ_app by (unfold SCREEN_WIDTH; lia).
  rewrite map_app. f_equal.
  rewrite !Z.add_0_l. apply printed_map_row. lia.
Qed.

Lemma length_printed_row (fb : list ascii) (r : Z) :
  length (printed_row fb r) = Z.to_nat SCREEN_WIDTH.
Proof.
  unfold printed_row. cbn [length]. rewrite length_map, length_seqZ.
  unfold SCREEN_WIDTH. lia.
Qed.

Lemma renderFramebuffer_cout (s : State) :
  cout (renderFramebuffer s)
  = cout s ++ flat_map (printed_row (frameBuffer s)) (seqZ 0 SCREEN_HEIGHT).
Proof.
  unfold renderFramebuffer; cbn [cout]. rewrite fold_left_snoc.
  replace SCREEN_SIZE with (Z.of_nat 50 * SCREEN_WIDTH)%Z by reflexivity.
  replace SCREEN_HEIGHT with (Z.of_nat 50) by reflexivity.
  rewrite (printed_map_rows (frameBuffer s) 50). reflexivity.
Qed.

Lemma length_rows (fb : list ascii) (h : nat) (r0 : Z) :
  length (flat_map (printed_row fb) (seqZ r0 (Z.of_nat h)))
  = (h * Z.to_nat SCREEN_WIDTH)%nat.
Proof.
  induction h as [| h IH]; [reflexivity |].
  rewrite seqZ_S, flat_map_app, length_app, IH; cbn [flat_map].
  rewrite app_nil_r, length_printed_row. lia.
Qed.

Lemma updateAngles_cout (s : State) : cout (updateAngles s) = cout s.
Proof. reflexivity. Qed.

Lemma updateAngles_buffers (s : State) :
  frameBuffer (updateAngles s) = frameBuffer s.
Proof. reflexivity. Qed.

Lemma renderFramebuffer_buffers (s : State) :
  frameBuffer (renderFramebuffer s) = frameBuffer s.
Proof. reflexivity. Qed.

(** C1, as the code has it.  [renderFramebuffer] appends to the output, for
    each of the [SCREEN_HEIGHT] rows in turn, a newline followed by the
    cells of columns 1 to [SCREEN_WIDTH - 1] of that row: the newline is
    printed in place of the cell of column 0, so a row shows
    [SCREEN_WIDTH - 1] cells and a frame is [SCREEN_SIZE] characters long;
    nothing else of the state changes.  Every frame prints the
    cursor-home sequence and then its frame buffer in this format. *)
Theorem renderFramebuffer_rows (s : State) :
  cout (renderFramebuffer s)
  = cout s ++ flat_map (printed_row (frameBuffer s)) (seqZ 0 SCREEN_HEIGHT)
  /\ (forall r : Z,
        printed_row (frameBuffer s) r
        = newline
          :: map (fun c => glyphAt s (r * SCREEN_WIDTH + c))
               (seqZ 1 (SCREEN_WIDTH - 1)))
  /\ (forall r : Z,
        length (printed_row (frameBuffer s) r) = Z.to_nat SCREEN_WIDTH)
  /\ length (flat_map (printed_row (frameBuffer s)) (seqZ 0 SCREEN_HEIGHT))
     = Z.to_nat SCREEN_SIZE
  /\ frameBuffer (renderFramebuffer s) = frameBuffer s
  /\ depthBuffer (renderFramebuffer s) = depthBuffer s
  /\ cout (frame s)
     = cout s ++ [ESC; "["; "H"]%char
       ++ flat_map (printed_row (frameBuffer (frame s))) (seqZ 0 SCREEN_HEIGHT).
Proof.
  split; [apply renderFramebuffer_cout |].
  split; [reflexivity |].
  split; [apply length_printed_row |].
  split.
  { replace SCREEN_HEIGHT with (Z.of_nat 50) by reflexivity.
    rewrite length_rows. reflexivity. }
  split; [reflexivity |]. split; [reflexivity |].
  rewrite frame_unfold, updateAngles_buffers, updateAngles_cout.
  rewrite renderFramebuffer_buffers, renderFramebuffer_cout.
  destruct (initSphere_angles (resetCursor (clearBuffers s)))
    as (_ & _ & _ & ->).
  cbn [cout resetCursor clearBuffers]. now rewrite <- app_assoc.
Qed.

Lemma length_flat_map_const {A B : Type} (f : A -> list B) (k : nat)
  (l : list A) :
  (forall a, length (f a) = k) ->
  length (flat_map f l) = (length l * k)%nat.
Proof.
  intros Hk. induction l as [| a l IH]; [reflexivity |].
  cbn [flat_map length]. rewrite length_app, Hk, IH. lia.
Qed.

(** C1, as stated, fails: with the glyph [#] in cell 0 of an otherwise
    blank frame buffer, the format of the specification shows [#] as the
    first cell of the first row, while the printed frame does not contain
    it at all; the printed frame has [SCREEN_SIZE] characters, not
    [SCREEN_HEIGHT] rows of a newline and [SCREEN_WIDTH] cells. *)
Lemma renderFramebuffer_drops_first_column :
  glyphAt marked_state 0 = "#"%char
  /\ In "#"%char (spec_frame (frameBuffer marked_state))
  /\ ~ In "#"%char (cout (renderFramebuffer marked_state))
  /\ length (cout (renderFramebuffer marked_state)) = Z.to_nat SCREEN_SIZE
  /\ length (spec_frame (frameBuffer marked_state))
     = Z.to_nat (SCREEN_HEIGHT * (SCREEN_WIDTH + 1))
  /\ cout (renderFramebuffer marked_state)
     <> cout marked_state ++ spec_frame (frameBuffer marked_state).
Proof.
  assert (Hcell : glyphAt marked_state 0 = "#"%char).
  { unfold glyphAt, marked_state; cbn [frameBuffer].
    change (Z.to_nat 0) with 0%nat.
    apply list_lookup_total_insert_eq. rewrite length_replicate.
    unfold SCREEN_SIZE, SCREEN_WIDTH, SCREEN_HEIGHT. lia. }
  assert (Hin : In "#"%char (spec_frame (frameBuffer marked_state))).
  { unfold spec_frame. apply in_flat_map. exists 0%Z. split.
    - apply list_elem_of_In, elem_of_seqZ. unfold SCREEN_HEIGHT. lia.
    - right. apply in_map_iff. exists 0%Z. split; [exact Hcell |].
      apply list_elem_of_In, elem_of_seqZ. unfold SCREEN_WIDTH. lia. }
  assert (Hnot : ~ In "#"%char (cout (renderFramebuffer marked_state))).
  { rewrite renderFramebuffer_cout.
    change (cout marked_state) with (@nil ascii). rewrite app_nil_l.
    intros Hc. apply in_flat_map in Hc. destruct Hc as (r & Hr & Hc).
    apply list_elem_of_In, elem_of_seqZ in Hr.
    destruct Hc as [Hc | Hc]; [discriminate Hc |].
    apply in_map_iff in Hc. destruct Hc as (c & Hc & Hcol).
    apply list_elem_of_In, elem_of_seqZ in Hcol.
    unfold marked_state in Hc; cbn [frameBuffer] in Hc.
    unfold SCREEN_HEIGHT, SCREEN_WIDTH in *.
    rewrite list_lookup_total_insert_ne in Hc by lia.
    rewrite lookup_total_replicate_2 in Hc
      by (unfold SCREEN_SIZE, SCREEN_HEIGHT, SCREEN_WIDTH; lia).
    discriminate Hc. }
  split; [exact Hcell |]. split; [exact Hin |]. split; [exact Hnot |].
  split.
  { rewrite renderFramebuffer_cout.
    change (cout marked_state) with (@nil ascii). rewrite app_nil_l.
    replace SCREEN_HEIGHT with (Z.of_nat 50) by reflexivity.
    rewrite length_rows. reflexivity. }
  split.
  { unfold spec_frame.
    rewrite (length_flat_map_const _ (S (Z.to_nat SCREEN_WIDTH)))
      by (intros r; cbn [length]; now rewrite length_map, length_seqZ).
    rewrite length_seqZ. reflexivity. }
  intros Heq. apply Hnot. rewrite Heq.
  change (cout marked_state) with (@nil ascii). exact Hin.
Qed.

(** * Further properties of the renderer *)

(** ** Rotation is a linear isometry *)

Lemma rotate_vsub (p q : Vertex) (alpha beta gamma : R) :
  rotate (vsub p q) alpha beta gamma
  = vsub (rotate p alpha beta gamma) (rotate q alpha beta gamma).
Proof.
  destruct p as [px py pz], q as [qx qy qz].
  unfold rotate, rotateCalcX, rotateCalcY, rotateCalcZ, vsub; cbn [x y z].
  f_equal; ring.
Qed.

(** X1: [rotate] keeps the distance of a vertex to the origin and the
    distance between any two vertices, whatever the three angles. *)
Theorem rotate_isometry (p q : Vertex) (alpha beta gamma : R) :
  norm2 (rotate p alpha beta gamma) = norm2 p
  /\ norm2 (vsub (rotate p alpha beta gamma) (rotate q alpha beta gamma))
     = norm2 (vsub p q).
Proof.
  split; [apply rotate_norm2 |].
  rewrite <- rotate_vsub. apply rotate_norm2.
Qed.

(** X2: two successive rotations about one axis are the rotation by the sum
    of the angles: about X (pitch only), about Y (yaw only, the static tilt
    of a ring) and about Z (roll only); so the opposite angle undoes a
    rotation about one axis. *)
Theorem rotate_same_axis_adds (p : Vertex) (a b : R) :
  rotate (rotate p a 0 0) b 0 0 = rotate p (a + b) 0 0
  /\ rotate (rotate p 0 a 0) 0 b 0 = rotate p 0 (a + b) 0
  /\ rotate (rotate p 0 0 a) 0 0 b = rotate p 0 0 (a + b)
  /\ rotate (rotate p a 0 0) (- a) 0 0 = p
  /\ rotate (rotate p 0 a 0) 0 (- a) 0 = p
  /\ rotate (rotate p 0 0 a) 0 0 (- a) = p.
Proof.
  destruct p as [px py pz].
  pose proof (sin2_cos2 a) as Ha. unfold Rsqr in Ha.
  unfold rotate, rotateCalcX, rotateCalcY, rotateCalcZ; cbn [x y z].
  rewrite !sin_plus, !cos_plus, !sin_neg, !cos_neg, !sin_0, !cos_0.
  repeat split; f_equal; nsatz.
Qed.

(** ** Clearing *)

Lemma writeVertex_lengths (v : Vertex) (c : ascii) (s : State) :
  length (frameBuffer (writeVertex v c s)) = length (frameBuffer s)
  /\ length (depthBuffer (writeVertex v c s)) = length (depthBuffer s).
Proof.
  unfold writeVertex. destruct (depthTest (project v) s);
    cbn [frameBuffer depthBuffer]; rewrite ?length_insert; auto.
Qed.

Lemma writeAll_lengths (ws : list (Vertex * ascii)) (s : State) :
  length (frameBuffer (writeAll ws s)) = length (frameBuffer s)
  /\ length (depthBuffer (writeAll ws s)) = length (depthBuffer s).
Proof.
  revert s. induction ws as [| w ws IH]; intros s; [auto |].
  rewrite writeAll_cons.
  destruct (IH (writeVertex (fst w) (snd w) s)) as [-> ->].
  apply writeVertex_lengths.
Qed.

(** X3: [clearBuffers] leaves only blanks in the frame buffer and only
    zeros in the depth buffer, keeps the sizes of both, and forgets every
    earlier write: clearing after any sequence of writes, or after drawing
    the sphere, gives the state that clearing alone gives; clearing twice is
    clearing once. *)
Theorem clearBuffers_forgets (ws : list (Vertex * ascii)) (s : State) :
  Forall (fun c => c = blank) (frameBuffer (clearBuffers s))
  /\ Forall (fun d => d = 0) (depthBuffer (clearBuffers s))
  /\ length (frameBuffer (clearBuffers s)) = length (frameBuffer s)
  /\ length (depthBuffer (clearBuffers s)) = length (depthBuffer s)
  /\ clearBuffers (writeAll ws s) = clearBuffers s
  /\ clearBuffers (initSphere s) = clearBuffers s
  /\ clearBuffers (clearBuffers s) = clearBuffers s.
Proof.
  assert (Hw : forall ws' : list (Vertex * ascii),
             clearBuffers (writeAll ws' s) = clearBuffers s).
  { intros ws'. unfold clearBuffers, fill.
    destruct (writeAll_lengths ws' s) as [-> ->].
    destruct (writeAll_angles ws' s) as (-> & -> & -> & ->). reflexivity. }
  unfold clearBuffers at 1 2 3 4, fill; cbn [frameBuffer depthBuffer].
  rewrite !length_replicate.
  split; [apply Forall_replicate; reflexivity |].
  split; [apply Forall_replicate; reflexivity |].
  split; [reflexivity |]. split; [reflexivity |].
  split; [apply Hw |].
  split; [rewrite initSphere_writes; apply Hw |].
  unfold clearBuffers, fill; cbn [pitch yaw roll frameBuffer depthBuffer cout].
  now rewrite !length_replicate.
Qed.

(** ** The buffers keep their size *)

Lemma frame_wf (s : State) : wf s -> wf (frame s).
Proof.
  intros Hwf. rewrite frame_unfold.
  assert (H : wf (initSphere (resetCursor (clearBuffers s)))).
  { apply initSphere_wf. apply (clearBuffers_wf s Hwf). }
  exact H.
Qed.

Lemma frames_wf (n : nat) (s : State) : wf s -> wf (frames n s).
Proof.
  revert s. induction n as [| n IH]; intros s Hwf; [exact Hwf |].
  cbn [frames]. apply IH, frame_wf, Hwf.
Qed.

(** X4: both buffers hold [SCREEN_SIZE] elements at program start, and any
    state in which they do keeps that through a write, a clear, the drawing
    of the sphere, a whole frame and any number of frames of [render]; so
    the index of line 86, checked against [SCREEN_SIZE], is always inside
    the buffers. *)
Theorem buffers_keep_size (n : nat) (s : State) (v : Vertex) (c : ascii) :
  wf s ->
  wf (writeVertex v c s)
  /\ wf (clearBuffers s)
  /\ wf (initSphere s)
  /\ wf (frame s)
  /\ wf (render_frames n s)
  /\ wf (render_frames n initial_state).
Proof.
  intros Hwf.
  split; [apply writeVertex_wf, Hwf |].
  split; [apply clearBuffers_wf, Hwf |].
  split; [apply initSphere_wf, Hwf |].
  split; [apply frame_wf, Hwf |].
  split; apply frames_wf; [exact Hwf | exact initial_state_wf].
Qed.

(** [buffers_keep_size] at program start, three frames, with a write in the
    centre of the screen. *)
Lemma buffers_keep_size_witness :
  wf initial_state
  /\ wf (writeVertex vertex_near "@" initial_state)
  /\ wf (frame initial_state)
  /\ wf (render_frames 3 initial_state).
Proof.
  destruct (buffers_keep_size 3 initial_state vertex_near "@"
              initial_state_wf) as (H1 & _ & _ & H4 & H5 & _).
  exact (conj initial_state_wf (conj H1 (conj H4 H5))).
Defined.

(** ** Order of writes *)

Lemma depthAt_insert_ne (s : State) (j : nat) (i : Z) (d : R) (fb : list ascii)
  (p q r : R) (out : list ascii) :
  j <> Z.to_nat i ->
  depthAt (mkState p q r fb (<[j := d]> (depthBuffer s)) out) i = depthAt s i.
Proof.
  intros Hne. unfold depthAt; cbn [depthBuffer].
  now rewrite list_lookup_total_insert_ne.
Qed.

Lemma writeVertex_commute (A B : Vertex) (cA cB : ascii) (s : State) :
  idx (project A) <> idx (project B) ->
  writeVertex A cA (writeVertex B cB s) = writeVertex B cB (writeVertex A cA s).
Proof.
  intros Hne.
  destruct (writeVertex_cases A cA s) as [(HonA & HA & HwA) | [HnA HwA]];
    destruct (writeVertex_cases B cB s) as [(HonB & HB & HwB) | [HnB HwB]].
  - assert (Hnat : Z.to_nat (idx (project A)) <> Z.to_nat (idx (project B)))
      by (unfold on_screen in *; lia).
    rewrite (writeVertex_hit A cA (writeVertex B cB s)); [| exact HonA |].
    2:{ rewrite HwB, depthAt_insert_ne by auto. exact HA. }
    rewrite (writeVertex_hit B cB (writeVertex A cA s)); [| exact HonB |].
    2:{ rewrite HwA, depthAt_insert_ne by auto. exact HB. }
    rewrite HwA, HwB; cbn [pitch yaw roll frameBuffer depthBuffer cout].
    f_equal; apply list_insert_insert_ne; auto.
  - rewrite HwB.
    rewrite (writeVertex_miss B cB (writeVertex A cA s)); [reflexivity |].
    intros [HonB HB]. apply HnB. split; [exact HonB |].
    rewrite HwA, depthAt_insert_ne in HB; [exact HB |].
    unfold on_screen in *; lia.
  - rewrite HwA.
    rewrite (writeVertex_miss A cA (writeVertex B cB s)); [reflexivity |].
    intros [HonA HA]. apply HnA. split; [exact HonA |].
    rewrite HwB, depthAt_insert_ne in HA; [exact HA |].
    unfold on_screen in *; lia.
  - now rewrite HwA, HwB, HwA.
Qed.

(** X5: two writes aimed at different cells commute: the state after both
    is the same in either order, whether each passes the depth test or
    not. *)
Theorem writes_to_different_cells_commute
  (A B : Vertex) (cA cB : ascii) (s : State) :
  idx (project A) <> idx (project B) ->
  writeVertex A cA (writeVertex B cB s) = writeVertex B cB (writeVertex A cA s)
  /\ writeAll [(A, cA); (B, cB)] s = writeAll [(B, cB); (A, cA)] s.
Proof.
  intros Hne.
  pose proof (writeVertex_commute A B cA cB s Hne) as H.
  split; [exact H |].
  unfold writeAll; cbn [fold_left fst snd]. symmetry. exact H.
Qed.

(** [writes_to_different_cells_commute] for the centre of the screen and
    the wrapped cell, at program start. *)
Lemma writes_to_different_cells_commute_witness :
  idx (project vertex_near) <> idx (project vertex_right)
  /\ writeVertex vertex_near "@" (writeVertex vertex_right "$" initial_state)
     = writeVertex vertex_right "$" (writeVertex vertex_near "@" initial_state).
Proof.
  assert (H : idx (project vertex_near) <> idx (project vertex_right)).
  { unfold vertex_near.
    rewrite project_on_axis, project_vertex_right; cbn [idx].
    unfold centre_cell, wrapped_cell. lia. }
  split; [exact H |].
  exact (proj1 (writes_to_different_cells_commute vertex_near vertex_right
                  "@" "$" initial_state H)).
Defined.

(** X6: for two writes aimed at the same on-screen cell with the same
    inverse depth, above what the cell holds, the first one written stays:
    the depth test is strict, so the second is discarded, and the glyph in
    the cell depends on the order. *)
Theorem equal_depth_first_write_stays
  (A B : Vertex) (cA cB : ascii) (s : State) :
  wf s ->
  idx (project A) = idx (project B) ->
  on_screen (idx (project A)) ->
  OOZ (project A) = OOZ (project B) ->
  OOZ (project A) > depthAt s (idx (project A)) ->
  writeVertex B cB (writeVertex A cA s) = writeVertex A cA s
  /\ writeVertex A cA (writeVertex B cB s) = writeVertex B cB s
  /\ glyphAt (writeVertex B cB (writeVertex A cA s)) (idx (project A)) = cA
  /\ glyphAt (writeVertex A cA (writeVertex B cB s)) (idx (project A)) = cB.
Proof.
  intros Hwf Hidx Hon Heq HA.
  assert (HonB : on_screen (idx (project B))) by (rewrite <- Hidx; exact Hon).
  assert (HB : OOZ (project B) > depthAt s (idx (project B)))
    by (rewrite <- Hidx, <- Heq; exact HA).
  destruct (writeVertex_hit_cell A cA s Hwf Hon HA) as [HdA HgA].
  destruct (writeVertex_hit_cell B cB s Hwf HonB HB) as [HdB HgB].
  assert (H1 : writeVertex B cB (writeVertex A cA s) = writeVertex A cA s).
  { apply writeVertex_miss. rewrite <- Hidx, HdA. lra. }
  assert (H2 : writeVertex A cA (writeVertex B cB s) = writeVertex B cB s).
  { apply writeVertex_miss. rewrite Hidx, HdB. lra. }
  rewrite H1, H2, Hidx, HgB, <- Hidx, HgA. auto.
Qed.

(** [equal_depth_first_write_stays] on the cleared canvas of program start,
    for two writes of the vertex (0, 0, 0) with the glyphs [@] and [$]. *)
Lemma equal_depth_first_write_stays_witness :
  wf cleared_state
  /\ on_screen (idx (project vertex_near))
  /\ OOZ (project vertex_near)
     > depthAt cleared_state (idx (project vertex_near))
  /\ glyphAt
       (writeVertex vertex_near "$"
          (writeVertex vertex_near "@" cleared_state))
       (idx (project vertex_near)) = "@"%char
  /\ glyphAt
       (writeVertex vertex_near "@"
          (writeVertex vertex_near "$" cleared_state))
       (idx (project vertex_near)) = "$"%char.
Proof.
  assert (Hon : on_screen (idx (project vertex_near))).
  { unfold vertex_near. rewrite project_on_axis. exact centre_cell_on_screen. }
  assert (Hgt : OOZ (project vertex_near)
                > depthAt cleared_state (idx (project vertex_near))).
  { destruct (clearBuffers_cell initial_state _ initial_state_wf Hon)
      as [Hd _].
    fold cleared_state in Hd. rewrite Hd.
    unfold vertex_near. rewrite project_on_axis; cbn [OOZ].
    unfold Z_OFFSET. lra. }
  destruct (equal_depth_first_write_stays vertex_near vertex_near "@" "$"
              cleared_state cleared_state_wf eq_refl Hon eq_refl Hgt)
    as (_ & _ & H3 & H4).
  exact (conj cleared_state_wf (conj Hon (conj Hgt (conj H3 H4)))).
Defined.

(** ** Where the sphere lands on the screen *)

Lemma static_cast_int_bound (r : R) (n : Z) :
  Rabs r < IZR (n + 1) -> (- n <= static_cast_int r <= n)%Z.
Proof.
  intros Hr. destruct (static_cast_int_truncates r) as [[Hlow _] _].
  rewrite <- abs_IZR in Hlow.
  assert (H : (Z.abs (static_cast_int r) < n + 1)%Z) by (apply lt_IZR; lra).
  lia.
Qed.

(** A vertex on the sphere of radius 10 projects into columns 35 to 115 and
    rows 5 to 45. *)
Lemma on_sphere_projection (v : Vertex) :
  norm2 v = RADIUS * RADIUS ->
  (35 <= xProjection (project v) <= 115)%Z
  /\ (5 <= yProjection (project v) <= 45)%Z.
Proof.
  intros Hn. rewrite project_xProjection, project_yProjection.
  unfold norm2, RADIUS in Hn. unfold Z_OFFSET, SCREEN_DISTANCE.
  set (d := z v + 20). set (u := 1 / d).
  assert (Hz : -10 <= z v <= 10) by nra.
  assert (Hd : 10 <= d <= 30) by (unfold d; lra).
  assert (Hu : u * d = 1) by (unfold u; field; lra).
  assert (Hud : (u * u) * (d * d) = 1)
    by (replace (u * u * (d * d)) with ((u * d) * (u * d)) by ring;
        rewrite Hu; ring).
  assert (Hu2 : 0 <= u * u) by nra.
  pose proof (Rle_0_sqr (2 * z v + 10)) as Hsq. unfold Rsqr in Hsq.
  assert (Hx : 3 * (x v * x v) <= d * d) by (unfold d; nra).
  assert (Hy : 3 * (y v * y v) <= d * d) by (unfold d; nra).
  assert (Hcol : Rabs (35 * u * x v * 2) < 41).
  { set (t := 35 * u * x v * 2).
    assert (H : 3 * (t * t) <= 4900).
    { replace (3 * (t * t))
        with (4900 * ((u * u) * (3 * (x v * x v)))) by (unfold t; ring).
      assert (H' : (u * u) * (3 * (x v * x v)) <= (u * u) * (d * d))
        by (apply Rmult_le_compat_l; assumption).
      lra. }
    apply Rabs_def1; nra. }
  assert (Hrow : Rabs (35 * u * - y v) < 21).
  { set (t := 35 * u * - y v).
    assert (H : 3 * (t * t) <= 1225).
    { replace (3 * (t * t))
        with (1225 * ((u * u) * (3 * (y v * y v)))) by (unfold t; ring).
      assert (H' : (u * u) * (3 * (y v * y v)) <= (u * u) * (d * d))
        by (apply Rmult_le_compat_l; assumption).
      lra. }
    apply Rabs_def1; nra. }
  apply (static_cast_int_bound _ 40) in Hcol.
  apply (static_cast_int_bound _ 20) in Hrow.
  lia.
Qed.

Lemma box_cell (col row : Z) :
  (35 <= col <= 115)%Z -> (5 <= row <= 45)%Z ->
  on_screen (col + row * SCREEN_WIDTH) /\ in_box (col + row * SCREEN_WIDTH).
Proof.
  intros Hc Hr. unfold on_screen, in_box, SCREEN_SIZE, SCREEN_HEIGHT.
  assert (Hdiv : ((col + row * SCREEN_WIDTH) / SCREEN_WIDTH = row)%Z).
  { rewrite Z.div_add by (unfold SCREEN_WIDTH; lia).
    rewrite Z.div_small by (unfold SCREEN_WIDTH; lia). lia. }
  assert (Hmod : ((col + row * SCREEN_WIDTH) mod SCREEN_WIDTH = col)%Z).
  { rewrite Z.mod_add by (unfold SCREEN_WIDTH; lia).
    apply Z.mod_small. unfold SCREEN_WIDTH. lia. }
  rewrite Hdiv, Hmod. unfold SCREEN_WIDTH. lia.
Qed.

Lemma sphere_writes_on_sphere (p q r : R) (w : Vertex * ascii) :
  In w (sphere_writes p q r) -> norm2 (fst w) = RADIUS * RADIUS.
Proof.
  unfold sphere_writes. rewrite !in_app_iff.
  intros [H | [H | [H | H]]]; revert w H; apply List.Forall_forall;
    apply ring_writes_on_sphere.
Qed.

Lemma ring_writes_glyph (yawOffset : R) (c : ascii) (p q r x0 : R)
  (w : Vertex * ascii) :
  In w (ring_writes yawOffset c p q r x0) -> snd w = c.
Proof.
  unfold ring_writes. intros Hin. apply in_flat_map in Hin.
  destruct Hin as (x1 & _ & [<- | [<- | []]]); reflexivity.
Qed.

Lemma sphere_writes_glyph (p q r : R) (w : Vertex * ascii) :
  In w (sphere_writes p q r) -> In (snd w) glyphs.
Proof.
  unfold sphere_writes, glyphs. rewrite !in_app_iff.
  intros [H | [H | [H | H]]]; apply ring_writes_glyph in H; rewrite H;
    cbn [In]; auto.
Qed.

Lemma sphere_writes_in_box (p q r : R) (w : Vertex * ascii) :
  In w (sphere_writes p q r) ->
  on_screen (idx (project (fst w))) /\ in_box (idx (project (fst w))).
Proof.
  intros Hin. apply sphere_writes_on_sphere in Hin.
  destruct (on_sphere_projection _ Hin) as [Hc Hr].
  rewrite project_idx. now apply box_cell.
Qed.

(** X7: every vertex that [initSphere] hands to [writeVertex] projects into
    columns 35 to 115 and rows 5 to 45: its column is inside
    [0, SCREEN_WIDTH), so none wraps into another row, and its cell index
    is inside [0, SCREEN_SIZE), so none is discarded by the bounds check of
    line 86. *)
Theorem sphere_projects_on_screen (s : State) :
  Forall
    (fun w =>
       (35 <= xProjection (project (fst w)) <= 115)%Z
       /\ (5 <= yProjection (project (fst w)) <= 45)%Z
       /\ (0 <= xProjection (project (fst w)) < SCREEN_WIDTH)%Z
       /\ (0 <= yProjection (project (fst w)) < SCREEN_HEIGHT)%Z
       /\ (0 <= idx (project (fst w)) < SCREEN_SIZE)%Z
       /\ (idx (project (fst w)) / SCREEN_WIDTH
           = yProjection (project (fst w)))%Z
       /\ (idx (project (fst w)) mod SCREEN_WIDTH
           = xProjection (project (fst w)))%Z)
    (sphere_writes (pitch s) (yaw s) (roll s)).
Proof.
  apply List.Forall_forall. intros w Hin.
  pose proof (sphere_writes_on_sphere _ _ _ _ Hin) as Hn.
  destruct (on_sphere_projection _ Hn) as [Hc Hr].
  destruct (box_cell _ _ Hc Hr) as [Hon _].
  rewrite project_idx.
  split; [exact Hc |]. split; [exact Hr |].
  split; [unfold SCREEN_WIDTH; lia |].
  split; [unfold SCREEN_HEIGHT; lia |].
  split; [exact Hon |].
  split.
  - rewrite Z.div_add by (unfold SCREEN_WIDTH; lia).
    rewrite Z.div_small by (unfold SCREEN_WIDTH; lia). lia.
  - rewrite Z.mod_add by (unfold SCREEN_WIDTH; lia).
    apply Z.mod_small. unfold SCREEN_WIDTH. lia.
Qed.

(** ** The drawn canvas *)

(** After a clear and the drawing of the sphere, an on-screen cell is blank
    with depth zero or holds a ring glyph with a positive depth, inside the
    reachable part of the screen. *)
Lemma drawn_cell (s : State) (i : Z) :
  wf s -> on_screen i ->
  (depthAt (initSphere (clearBuffers s)) i = 0
   /\ glyphAt (initSphere (clearBuffers s)) i = blank)
  \/ (0 < depthAt (initSphere (clearBuffers s)) i
      /\ In (glyphAt (initSphere (clearBuffers s)) i) glyphs
      /\ in_box i).
Proof.
  intros Hwf Hon.
  pose proof (clearBuffers_wf s Hwf) as Hwfc.
  destruct (clearBuffers_cell s i Hwf Hon) as [Hd0 Hg0].
  rewrite initSphere_writes.
  destruct (writeAll_cell_origin
              (sphere_writes (pitch (clearBuffers s)) (yaw (clearBuffers s))
                 (roll (clearBuffers s))) (clearBuffers s) i Hwfc Hon)
    as [[Hd Hg] | (v & c & Hin & Hi & Hlt & Hd & Hg)].
  - left. rewrite Hd, Hg. auto.
  - right. rewrite Hd, Hg. rewrite Hd0 in Hlt.
    split; [exact Hlt |]. split.
    + apply (sphere_writes_glyph _ _ _ (v, c) Hin).
    + rewrite <- Hi. apply (sphere_writes_in_box _ _ _ (v, c) Hin).
Qed.

(** X8: after a clear and the drawing of the sphere, every cell outside
    rows 5 to 45 and columns 35 to 115 is blank with depth zero, whatever
    the animation angles: the sphere never reaches the margins of the
    screen. *)
Theorem margins_stay_blank (s : State) (i : Z) :
  wf s -> on_screen i -> ~ in_box i ->
  glyphAt (initSphere (clearBuffers s)) i = blank
  /\ depthAt (initSphere (clearBuffers s)) i = 0.
Proof.
  intros Hwf Hon Hout.
  destruct (drawn_cell s i Hwf Hon) as [[Hd Hg] | (_ & _ & Hbox)];
    [auto | contradiction].
Qed.

(** [margins_stay_blank] at program start, for cell 0, the top left
    corner. *)
Lemma margins_stay_blank_witness :
  wf initial_state /\ on_screen 0 /\ ~ in_box 0
  /\ glyphAt (initSphere (clearBuffers initial_state)) 0 = blank
  /\ depthAt (initSphere (clearBuffers initial_state)) 0 = 0.
Proof.
  assert (Hon : on_screen 0)
    by (unfold on_screen, SCREEN_SIZE, SCREEN_WIDTH, SCREEN_HEIGHT; lia).
  assert (Hout : ~ in_box 0).
  { unfold in_box, SCREEN_WIDTH. intros [H _].
    rewrite Z.div_0_l in H by lia. lia. }
  exact (conj initial_state_wf
           (conj Hon
              (conj Hout
                 (margins_stay_blank initial_state 0 initial_state_wf
                    Hon Hout)))).
Defined.

(** X9: after a clear and the drawing of the sphere something is on the
    canvas: some cell inside rows 5 to 45 and columns 35 to 115 holds one of
    the four ring glyphs with a positive depth. *)
Theorem sphere_is_drawn (s : State) :
  wf s ->
  exists i : Z,
    on_screen i /\ in_box i
    /\ In (glyphAt (initSphere (clearBuffers s)) i) glyphs
    /\ glyphAt (initSphere (clearBuffers s)) i <> blank
    /\ 0 < depthAt (initSphere (clearBuffers s)) i.
Proof.
  intros Hwf.
  pose proof (clearBuffers_wf s Hwf) as Hwfc.
  set (ws := sphere_writes (pitch (clearBuffers s)) (yaw (clearBuffers s))
               (roll (clearBuffers s))).
  assert (Hne : exists w, In w ws).
  { destruct ws as [| w ws'] eqn:Hws; [| exists w; now left].
    exfalso. unfold ws, sphere_writes in Hws.
    apply (f_equal (@length _)) in Hws.
    rewrite !length_app, !length_ring_writes in Hws. discriminate Hws. }
  destruct Hne as ([v c] & Hin).
  destruct (sphere_writes_in_box _ _ _ _ Hin) as [Hon Hbox].
  cbn [fst] in Hon, Hbox.
  pose proof (sphere_writes_on_sphere _ _ _ _ Hin) as Hn. cbn [fst] in Hn.
  destruct (on_sphere_in_front v Hn) as (_ & _ & Hpos).
  pose proof (writeAll_depth_bound ws (clearBuffers s) v c Hwfc Hin Hon)
    as Hbound.
  exists (idx (project v)).
  destruct (drawn_cell s _ Hwf Hon) as [[Hd _] | (Hd & Hg & _)].
  - rewrite initSphere_writes in Hd. fold ws in Hd. lra.
  - split; [exact Hon |]. split; [exact Hbox |]. split; [exact Hg |].
    split; [| exact Hd].
    intros Hb. rewrite Hb in Hg. unfold glyphs, blank in Hg.
    cbn [In] in Hg. destruct Hg as [H | [H | [H | [H | []]]]]; discriminate H.
Qed.

(** [sphere_is_drawn] at program start. *)
Lemma sphere_is_drawn_witness :
  wf initial_state
  /\ exists i : Z,
       on_screen i /\ in_box i
       /\ In (glyphAt (initSphere (clearBuffers initial_state)) i) glyphs
       /\ glyphAt (initSphere (clearBuffers initial_state)) i <> blank
       /\ 0 < depthAt (initSphere (clearBuffers initial_state)) i.
Proof.
  exact (conj initial_state_wf
           (sphere_is_drawn initial_state initial_state_wf)).
Defined.

(** ** What a frame prints *)

Lemma frame_cout (s : State) :
  cout (frame s)
  = cout s ++ home_sequence
    ++ flat_map
         (printed_row (frameBuffer (initSphere (resetCursor (clearBuffers s)))))
         (seqZ 0 SCREEN_HEIGHT).
Proof.
  rewrite frame_unfold, updateAngles_cout, renderFramebuffer_cout.
  destruct (initSphere_angles (resetCursor (clearBuffers s)))
    as (_ & _ & _ & ->).
  cbn [cout resetCursor clearBuffers]. unfold home_sequence.
  now rewrite <- app_assoc.
Qed.

Lemma resetCursor_canvas (s : State) (i : Z) :
  glyphAt (initSphere (resetCursor s)) i = glyphAt (initSphere s) i.
Proof.
  unfold glyphAt. rewrite !initSphere_writes.
  change (pitch (resetCursor s)) with (pitch s).
  change (yaw (resetCursor s)) with (yaw s).
  change (roll (resetCursor s)) with (roll s).
  assert (H : canvas (writeAll (sphere_writes (pitch s) (yaw s) (roll s))
                        (resetCursor s))
              = canvas (writeAll (sphere_writes (pitch s) (yaw s) (roll s)) s))
    by (apply writeAll_canvas_ext; reflexivity).
  unfold canvas in H. injection H as -> _. reflexivity.
Qed.

(** X10: a frame appends to the output the cursor-home sequence and then
    [SCREEN_SIZE] characters, each of them a newline, a blank or one of the
    four ring glyphs. *)
Theorem frame_prints_ring_glyphs (s : State) :
  wf s ->
  exists out : list ascii,
    cout (frame s) = cout s ++ home_sequence ++ out
    /\ length out = Z.to_nat SCREEN_SIZE
    /\ Forall (fun ch => ch = newline \/ ch = blank \/ In ch glyphs) out.
Proof.
  intros Hwf.
  exists (flat_map
            (printed_row
               (frameBuffer (initSphere (resetCursor (clearBuffers s)))))
            (seqZ 0 SCREEN_HEIGHT)).
  split; [apply frame_cout |]. split.
  { replace SCREEN_HEIGHT with (Z.of_nat 50) by reflexivity.
    rewrite length_rows. reflexivity. }
  apply List.Forall_forall. intros ch Hin.
  apply in_flat_map in Hin. destruct Hin as (r & Hr & Hin).
  apply list_elem_of_In, elem_of_seqZ in Hr.
  destruct Hin as [<- | Hin]; [now left |].
  apply in_map_iff in Hin. destruct Hin as (c & <- & Hc).
  apply list_elem_of_In, elem_of_seqZ in Hc.
  assert (Hon : on_screen (r * SCREEN_WIDTH + c)).
  { unfold on_screen, SCREEN_SIZE, SCREEN_HEIGHT, SCREEN_WIDTH in *. lia. }
  change (frameBuffer (initSphere (resetCursor (clearBuffers s)))
          !!! Z.to_nat (r * SCREEN_WIDTH + c))
    with (glyphAt (initSphere (resetCursor (clearBuffers s)))
            (r * SCREEN_WIDTH + c)).
  rewrite resetCursor_canvas.
  destruct (drawn_cell s _ Hwf Hon) as [[_ ->] | (_ & Hg & _)]; auto.
Qed.

(** [frame_prints_ring_glyphs] at program start. *)
Lemma frame_prints_ring_glyphs_witness :
  wf initial_state
  /\ exists out : list ascii,
       cout (frame initial_state)
       = cout initial_state ++ home_sequence ++ out
       /\ length out = Z.to_nat SCREEN_SIZE
       /\ Forall (fun ch => ch = newline \/ ch = blank \/ In ch glyphs) out.
Proof.
  exact (conj initial_state_wf
           (frame_prints_ring_glyphs initial_state initial_state_wf)).
Defined.

Lemma frames_cout_length (n : nat) (s : State) :
  length (cout (frames n s))
  = (length (cout s) + n * (3 + Z.to_nat SCREEN_SIZE))%nat.
Proof.
  revert s. induction n as [| n IH]; intros s; [cbn [frames]; lia |].
  cbn [frames]. rewrite IH, frame_cout, !length_app.
  replace SCREEN_HEIGHT with (Z.of_nat 50) by reflexivity.
  rewrite length_rows.
  change (length home_sequence) with 3%nat.
  change (50 * Z.to_nat SCREEN_WIDTH)%nat with (Z.to_nat SCREEN_SIZE).
  lia.
Qed.

Lemma frames_cout_prefix (n : nat) (s : State) :
  exists out : list ascii, cout (frames n s) = cout s ++ out.
Proof.
  revert s. induction n as [| n IH]; intros s.
  - exists []. cbn [frames]. now rewrite app_nil_r.
  - cbn [frames]. destruct (IH (frame s)) as [out Hout].
    rewrite Hout, frame_cout. eexists. rewrite <- !app_assoc. reflexivity.
Qed.

(** X11: [render] first prints the nine characters of the clear-screen and
    colour sequence, and every turn of its loop prints three characters of
    cursor-home and [SCREEN_SIZE] characters of frame: after [n] turns the
    output has grown by [9 + n * (3 + SCREEN_SIZE)] characters, and it
    begins with what was printed before, followed by the clear-screen
    sequence. *)
Theorem render_output_length (n : nat) (s : State) :
  length (cout (render_frames n s))
  = (length (cout s) + 9 + n * (3 + Z.to_nat SCREEN_SIZE))%nat
  /\ exists out : list ascii,
       cout (render_frames n s) = cout s ++ clear_sequence ++ out.
Proof.
  unfold render_frames. split.
  - rewrite frames_cout_length. unfold clearScreen; cbn [cout].
    rewrite length_app. cbn [length]. lia.
  - destruct (frames_cout_prefix n (clearScreen s)) as [out Hout].
    exists out. rewrite Hout. unfold clearScreen, clear_sequence; cbn [cout].
    now rewrite <- app_assoc.
Qed.

(** ** Depths on the drawn canvas *)

(** X14: after a clear and the drawing of the sphere, the depth stored in a
    cell is either the zero of the clear or the inverse depth of a sphere
    point, between 1/30 and 1/10: the sphere stays between 10 and 30 units
    in front of the camera. *)
Theorem drawn_depth_range (s : State) (i : Z) :
  wf s -> on_screen i ->
  depthAt (initSphere (clearBuffers s)) i = 0
  \/ 1 / 30 <= depthAt (initSphere (clearBuffers s)) i <= 1 / 10.
Proof.
  intros Hwf Hon.
  pose proof (clearBuffers_wf s Hwf) as Hwfc.
  destruct (clearBuffers_cell s i Hwf Hon) as [Hd0 _].
  rewrite initSphere_writes.
  destruct (writeAll_cell_origin
              (sphere_writes (pitch (clearBuffers s)) (yaw (clearBuffers s))
                 (roll (clearBuffers s))) (clearBuffers s) i Hwfc Hon)
    as [[Hd _] | (v & c & Hin & _ & _ & Hd & _)].
  - left. now rewrite Hd.
  - right. rewrite Hd, project_OOZ.
    pose proof (sphere_writes_on_sphere _ _ _ _ Hin) as Hn. cbn [fst] in Hn.
    destruct (on_sphere_in_front v Hn) as (Hz & _ & _).
    set (d := z v + Z_OFFSET) in *.
    assert (Hinv : 0 < / d) by (apply Rinv_0_lt_compat; lra).
    assert (Hone : / d * d = 1) by (field; lra).
    unfold Rdiv. rewrite Rmult_1_l. split.
    + assert (H : 1 <= 30 * / d) by nra. lra.
    + assert (H : 10 * / d <= 1) by nra. lra.
Qed.

(** [drawn_depth_range] at program start, for the centre of the screen. *)
Lemma drawn_depth_range_witness :
  wf initial_state /\ on_screen centre_cell
  /\ (depthAt (initSphere (clearBuffers initial_state)) centre_cell = 0
      \/ 1 / 30
         <= depthAt (initSphere (clearBuffers initial_state)) centre_cell
         <= 1 / 10).
Proof.
  exact (conj initial_state_wf
           (conj centre_cell_on_screen
              (drawn_depth_range initial_state centre_cell initial_state_wf
                 centre_cell_on_screen))).
Defined.

(** ** Symmetry and order of the projector *)

Lemma static_cast_int_opp (r : R) :
  static_cast_int (- r) = (- static_cast_int r)%Z.
Proof.
  apply static_cast_int_eq.
  destruct (static_cast_int_truncates r) as [Habs Hsign].
  unfold truncates. rewrite opp_IZR, !Rabs_Ropp.
  split; [exact Habs | nra].
Qed.

(** X15: the projector is symmetric about the centre of the screen, column
    75 and row 25: negating [x] of a vertex mirrors its column and keeps
    its row, negating [y] mirrors its row and keeps its column (the
    conversion to [int] truncates toward zero on both sides). *)
Theorem project_mirror (v : Vertex) :
  (xProjection (project (mkVertex (- x v) (y v) (z v))) - 75
   = - (xProjection (project v) - 75))%Z
  /\ yProjection (project (mkVertex (- x v) (y v) (z v)))
     = yProjection (project v)
  /\ (yProjection (project (mkVertex (x v) (- y v) (z v))) - 25
      = - (yProjection (project v) - 25))%Z
  /\ xProjection (project (mkVertex (x v) (- y v) (z v)))
     = xProjection (project v)
  /\ OOZ (project (mkVertex (- x v) (- y v) (z v))) = OOZ (project v).
Proof.
  rewrite !project_xProjection, !project_yProjection, !project_OOZ;
    cbn [x y z].
  set (u := 1 / (z v + Z_OFFSET)).
  replace (IZR SCREEN_DISTANCE * u * - x v * 2)
    with (- (IZR SCREEN_DISTANCE * u * x v * 2)) by ring.
  replace (IZR SCREEN_DISTANCE * u * - - y v)
    with (- (IZR SCREEN_DISTANCE * u * - y v)) by ring.
  rewrite !static_cast_int_opp.
  repeat split; lia.
Qed.

(** X16: in front of the camera plane a vertex with smaller [z] has the
    strictly larger inverse depth, so the comparison of line 86 prefers the
    vertex nearer to the viewer; both inverse depths are positive. *)
Theorem nearer_vertex_larger_inverse_depth (A B : Vertex) :
  0 < z A + Z_OFFSET -> z A < z B ->
  OOZ (project A) > OOZ (project B) /\ 0 < OOZ (project B).
Proof.
  intros HA HAB. rewrite !project_OOZ. unfold Rdiv. rewrite !Rmult_1_l.
  split.
  - apply Rinv_lt_contravar; [nra | lra].
  - apply Rinv_0_lt_compat. lra.
Qed.

(** [nearer_vertex_larger_inverse_depth] for the vertices (0, 0, 0) and
    (0, 0, 20). *)
Lemma nearer_vertex_larger_inverse_depth_witness :
  0 < z vertex_near + Z_OFFSET /\ z vertex_near < z vertex_far
  /\ OOZ (project vertex_near) > OOZ (project vertex_far)
  /\ 0 < OOZ (project vertex_far).
Proof.
  assert (H1 : 0 < z vertex_near + Z_OFFSET)
    by (unfold vertex_near, Z_OFFSET; cbn [z]; lra).
  assert (H2 : z vertex_near < z vertex_far)
    by (unfold vertex_near, vertex_far; cbn [z]; lra).
  exact (conj H1
           (conj H2 (nearer_vertex_larger_inverse_depth vertex_near vertex_far
                       H1 H2))).
Defined.

(** * The projector and the loop counter in binary32 *)

(** ** Conversion of a binary32 value to [int] *)

Lemma int_checked_Some (n m : Z) :
  int_checked n = Some m -> m = n /\ (INT_MIN <= n <= INT_MAX)%Z.
Proof.
  unfold int_checked.
  destruct (Z.leb_spec INT_MIN n) as [Hlo | Hlo],
    (Z.leb_spec n INT_MAX) as [Hhi | Hhi];
    cbn [andb]; intros H; inversion H; subst; auto.
Qed.

Lemma truncates_cond_Zopp (s : bool) (r : R) (b : Z) :
  (0 <= b)%Z -> IZR b <= r < IZR b + 1 ->
  truncates (if s then - r else r) (cond_Zopp s b).
Proof.
  intros Hb Hr. apply IZR_le in Hb. unfold truncates.
  destruct s; cbn [cond_Zopp].
  - rewrite opp_IZR, !Rabs_Ropp, !Rabs_pos_eq by lra. split; [lra | nra].
  - rewrite !Rabs_pos_eq by lra. split; [lra | nra].
Qed.

Lemma IZR_cond_Zopp (s : bool) (m : Z) (k : R) :
  IZR (cond_Zopp s m) * k = if s then - (IZR m * k) else IZR m * k.
Proof. destruct s; cbn [cond_Zopp]; rewrite ?opp_IZR; ring. Qed.

(** The conversion, where it is defined, drops the fractional part of the
    value and gives a 32-bit integer. *)
Lemma f32_to_int_truncates (f : float32) (n : Z) :
  f32_to_int f = Some n ->
  truncates (f32_value f) n /\ (INT_MIN <= n <= INT_MAX)%Z.
Proof.
  destruct f as [s | s | | s m e]; cbn [f32_to_int f32_value];
    try discriminate.
  - intros H. inversion H; subst. split.
    + unfold truncates. rewrite Rabs_R0. split; lra.
    + unfold INT_MIN, INT_MAX. lia.
  - intros H. apply int_checked_Some in H. destruct H as [-> Hrange].
    split; [| exact Hrange].
    rewrite IZR_cond_Zopp.
    destruct (Z.leb_spec 0 e) as [He | He].
    + apply truncates_cond_Zopp.
      * assert (0 < 2 ^ e)%Z by (apply Z.pow_pos_nonneg; lia). lia.
      * rewrite mult_IZR. lra.
    + assert (Hpow : (0 < 2 ^ (- e))%Z) by (apply Z.pow_pos_nonneg; lia).
      rewrite Z.quot_div_nonneg by lia.
      pose proof (Z.mul_div_le (Z.pos m) (2 ^ (- e)) Hpow) as Hlow.
      pose proof (Z.mul_succ_div_gt (Z.pos m) (2 ^ (- e)) Hpow) as Hup.
      set (q := (Z.pos m / 2 ^ (- e))%Z) in *.
      apply truncates_cond_Zopp.
      * apply Z.div_pos; lia.
      * apply IZR_le in Hlow. apply IZR_lt in Hup, Hpow.
        rewrite mult_IZR in Hlow, Hup. rewrite succ_IZR in Hup.
        set (P := IZR (2 ^ (- e))) in *.
        assert (Hinv : 0 < / P) by (apply Rinv_0_lt_compat; exact Hpow).
        assert (Hone : P * / P = 1) by (field; lra).
        split.
        -- replace (IZR q) with (P * IZR q * / P)
             by (rewrite (Rmult_comm P), Rmult_assoc, Hone; ring).
           apply Rmult_le_compat_r; lra.
        -- replace (IZR q + 1) with (P * (IZR q + 1) * / P)
             by (rewrite (Rmult_comm P), Rmult_assoc, Hone; ring).
           apply Rmult_lt_compat_r; lra.
Qed.

Lemma f32_to_int_X_OFFSET32 : f32_to_int X_OFFSET32 = Some 75%Z.
Proof. vm_compute. reflexivity. Qed.

Lemma f32_to_int_Y_OFFSET32 : f32_to_int Y_OFFSET32 = Some 25%Z.
Proof. vm_compute. reflexivity. Qed.

(** With [z + Z_OFFSET] a zero the row product is an infinity or a NaN,
    and its conversion to [int] is undefined. *)
Lemma row_product32_zero_divisor (v : Vertex32) (s : bool) :
  f32_add (z32 v) Z_OFFSET32 = S754_zero s ->
  f32_to_int (row_product32 v) = None.
Proof.
  intros Hz. unfold row_product32, invZ32. rewrite Hz.
  destruct s, (y32 v) as [sy | sy | | sy my ey]; try destruct sy;
    reflexivity.
Qed.

(** ** The projector *)

Lemma project32_Some (v : Vertex32) (p : Projection32) :
  project32 v = Some p ->
  exists xq yq : Z,
    f32_to_int (column_product32 v) = Some xq
    /\ f32_to_int (row_product32 v) = Some yq
    /\ p = mkProjection32 (invZ32 v) (xq + 75) (yq + 25)
             (xq + 75 + (yq + 25) * SCREEN_WIDTH)
    /\ (INT_MIN <= xq + 75 + (yq + 25) * SCREEN_WIDTH <= INT_MAX)%Z.
Proof.
  unfold project32.
  rewrite f32_to_int_X_OFFSET32, f32_to_int_Y_OFFSET32.
  destruct (f32_to_int (column_product32 v)) as [xq |]; [| discriminate].
  destruct (f32_to_int (row_product32 v)) as [yq |]; [| discriminate].
  destruct (int_checked (xq + 75)) as [xp |] eqn:Hx; [| discriminate].
  destruct (int_checked (yq + 25)) as [yp |] eqn:Hy; [| discriminate].
  apply int_checked_Some in Hx, Hy. destruct Hx as [-> _], Hy as [-> _].
  destruct (int_checked ((yq + 25) * SCREEN_WIDTH)) as [t |] eqn:Ht;
    [| discriminate].
  apply int_checked_Some in Ht. destruct Ht as [-> _].
  destruct (int_checked (xq + 75 + (yq + 25) * SCREEN_WIDTH)) as [i |] eqn:Hi;
    [| discriminate].
  apply int_checked_Some in Hi. destruct Hi as [-> Hrange].
  intros H. inversion H; subst. exists xq, yq. auto.
Qed.

(** C2, as the code has it.  Whenever the projector is defined for a
    binary32 vertex (every conversion to [int] and every [int] result
    fits 32 bits), [z + Z_OFFSET] is not a zero, the inverse depth is the
    binary32 quotient [1 / (z + Z_OFFSET)], the screen column is the
    binary32 product [SCREEN_DISTANCE * invZ * x * 2] with its fractional
    part dropped (truncated toward zero, not rounded to nearest) plus
    [SCREEN_WIDTH / 2], the screen row is the binary32 product
    [SCREEN_DISTANCE * invZ * -y] truncated the same way plus
    [SCREEN_HEIGHT / 2], and the cell index is column + row *
    [SCREEN_WIDTH], a 32-bit integer. *)
Theorem project32_truncates (v : Vertex32) (p : Projection32) :
  project32 v = Some p ->
  (forall s : bool, f32_add (z32 v) Z_OFFSET32 <> S754_zero s)
  /\ OOZ32 p = f32_div (f32_of_int 1) (f32_add (z32 v) Z_OFFSET32)
  /\ truncates (f32_value (column_product32 v))
       (xProjection32 p - SCREEN_WIDTH / 2)
  /\ truncates (f32_value (row_product32 v))
       (yProjection32 p - SCREEN_HEIGHT / 2)
  /\ idx32 p = (xProjection32 p + yProjection32 p * SCREEN_WIDTH)%Z
  /\ (INT_MIN <= idx32 p <= INT_MAX)%Z.
Proof.
  intros Hp.
  destruct (project32_Some v p Hp) as (xq & yq & Hx & Hy & -> & Hrange).
  cbn [OOZ32 xProjection32 yProjection32 idx32].
  apply f32_to_int_truncates in Hx. destruct Hx as [Hx _].
  pose proof Hy as Hy'.
  apply f32_to_int_truncates in Hy'. destruct Hy' as [Hy' _].
  split.
  { intros s Hz. rewrite (row_product32_zero_divisor v s Hz) in Hy.
    discriminate Hy. }
  split; [reflexivity |].
  change (SCREEN_WIDTH / 2)%Z with 75%Z.
  change (SCREEN_HEIGHT / 2)%Z with 25%Z.
  replace (xq + 75 - 75)%Z with xq by lia.
  replace (yq + 25 - 25)%Z with yq by lia.
  auto.
Qed.

Lemma project32_vertex32_fractional :
  project32 vertex32_fractional = Some projection32_fractional.
Proof. vm_compute. reflexivity. Qed.

(** [project32_truncates] at the vertex (1/2, 1, -16): the products are
    8.75 and -8.75, the column is 83 and the row 17. *)
Lemma project32_truncates_witness :
  project32 vertex32_fractional = Some projection32_fractional
  /\ xProjection32 projection32_fractional = 83%Z
  /\ yProjection32 projection32_fractional = 17%Z
  /\ truncates (f32_value (column_product32 vertex32_fractional))
       (xProjection32 projection32_fractional - SCREEN_WIDTH / 2)
  /\ truncates (f32_value (row_product32 vertex32_fractional))
       (yProjection32 projection32_fractional - SCREEN_HEIGHT / 2).
Proof.
  destruct (project32_truncates vertex32_fractional projection32_fractional
              project32_vertex32_fractional) as (_ & _ & Hx & Hy & _).
  exact (conj project32_vertex32_fractional
           (conj eq_refl (conj eq_refl (conj Hx Hy)))).
Defined.

(** The rounding of the products shows in the column: for the vertex
    (-7, 0, 29) the exact product is -10 and the real-number reading gives
    column 65; in binary32 the product is -10485759 / 2^20, just above -10,
    and the column is 66. *)
Lemma project32_vertex32_rounded :
  column_product32 vertex32_rounded = S754_finite true 10485759 (-20)
  /\ option_map xProjection32 (project32 vertex32_rounded) = Some 66%Z
  /\ xProjection (project (mkVertex (-7) 0 29)) = 65%Z.
Proof.
  split; [vm_compute; reflexivity |]. split; [vm_compute; reflexivity |].
  rewrite project_xProjection. unfold SCREEN_DISTANCE, Z_OFFSET; cbn [x z].
  rewrite (static_cast_int_neg _ (-10)); [reflexivity | lia | lra].
Qed.

(** ** The loop counter of [initRing] *)

Lemma initRing_counter32_more_fuel (fuel extra : nat) :
  forall (x0 : float32) (l : list float32),
    initRing_counter32 fuel x0 = Some l ->
    initRing_counter32 (fuel + extra) x0 = Some l.
Proof.
  induction fuel as [| fuel IH]; intros x0 l Hl; [discriminate Hl |].
  cbn [initRing_counter32 Nat.add] in *.
  destruct (SFleb x0 RADIUS32); [| exact Hl].
  destruct (initRing_counter32 fuel (f32_add x0 RING_STEP32)) as [l' |] eqn:Hl';
    [| discriminate Hl].
  now rewrite (IH _ _ Hl').
Qed.

(** X13: in binary32 the loop of [initRing] ends: with room for at least
    802 turns it makes exactly 801, whatever the room beyond that.  Its
    counter starts at [-RADIUS], every value it takes lies between
    [-RADIUS] and [RADIUS], and the last one is 10485741 / 2^20
    (9.99998...), strictly below [RADIUS]: the rounded additions of
    [0.025f] never land on [RADIUS] itself, and one more addition exceeds
    it. *)
Theorem initRing_counter32_terminates (extra : nat) :
  exists l : list float32,
    initRing_counter32 (802 + extra) (SFopp RADIUS32) = Some l
    /\ length l = 801%nat
    /\ hd S754_nan l = SFopp RADIUS32
    /\ List.last l S754_nan = last_counter32
    /\ forallb (fun c => SFleb (SFopp RADIUS32) c && SFleb c RADIUS32) l = true
    /\ SFltb last_counter32 RADIUS32 = true
    /\ SFleb (f32_add last_counter32 RING_STEP32) RADIUS32 = false
    /\ f32_value last_counter32 < RADIUS.
Proof.
  assert (H : exists l : list float32,
             initRing_counter32 802 (SFopp RADIUS32) = Some l
             /\ length l = 801%nat
             /\ hd S754_nan l = SFopp RADIUS32
             /\ List.last l S754_nan = last_counter32
             /\ forallb (fun c => SFleb (SFopp RADIUS32) c && SFleb c RADIUS32)
                  l = true).
  { eexists. split; [vm_compute; reflexivity |].
    repeat split; vm_compute; reflexivity. }
  destruct H as (l & Hl & Hlen & Hhd & Hlast & Hall).
  exists l.
  split; [apply initRing_counter32_more_fuel; exact Hl |].
  split; [exact Hlen |]. split; [exact Hhd |]. split; [exact Hlast |].
  split; [exact Hall |].
  split; [vm_compute; reflexivity |]. split; [vm_compute; reflexivity |].
  unfold last_counter32, f32_value, RADIUS; cbn [cond_Zopp Z.leb Z.compare].
  change (2 ^ (- -20))%Z with 1048576%Z. lra.
Qed.

(** ** Order of the animation angles *)

Lemma frames_angles_ordered (n : nat) :
  forall s : State,
    pitch s = yaw s -> 0 <= roll s <= pitch s ->
    pitch (frames n s) = yaw (frames n s)
    /\ 0 <= roll (frames n s) <= pitch (frames n s)
    /\ pitch s <= pitch (frames n s)
    /\ roll s <= roll (frames n s).
Proof.
  induction n as [| n IH]; intros s Heq Hord; [cbn [frames]; lra |].
  cbn [frames].
  destruct (frame_angles s) as (Hp & Hy & Hr).
  unfold PITCH_DELTA, YAW_DELTA, ROLL_DELTA in *.
  destruct (IH (frame s)) as (H1 & H2 & H3 & H4); [lra | lra |].
  repeat split; lra.
Qed.

(** X12: when [pitch] and [yaw] are equal and [roll] lies between 0 and
    [pitch], as at program start, this still holds after any number of
    turns of the loop of [render], and no angle has decreased: [pitch] and
    [yaw] advance together and [roll] never overtakes them. *)
Theorem angles_stay_ordered (n : nat) (s : State) :
  pitch s = yaw s -> 0 <= roll s <= pitch s ->
  pitch (render_frames n s) = yaw (render_frames n s)
  /\ 0 <= roll (render_frames n s) <= pitch (render_frames n s)
  /\ pitch s <= pitch (render_frames n s)
  /\ yaw s <= yaw (render_frames n s)
  /\ roll s <= roll (render_frames n s).
Proof.
  intros Heq Hord. unfold render_frames.
  destruct (frames_angles_ordered n (clearScreen s) Heq Hord)
    as (H1 & H2 & H3 & H4).
  change (pitch (clearScreen s)) with (pitch s) in H3.
  change (roll (clearScreen s)) with (roll s) in H4.
  repeat split; try lra.
Qed.

(** [angles_stay_ordered] at program start, after three frames. *)
Lemma angles_stay_ordered_witness :
  pitch initial_state = yaw initial_state
  /\ 0 <= roll initial_state <= pitch initial_state
  /\ pitch (render_frames 3 initial_state) = yaw (render_frames 3 initial_state)
  /\ 0 <= roll (render_frames 3 initial_state)
     <= pitch (render_frames 3 initial_state).
Proof.
  assert (H1 : pitch initial_state = yaw initial_state) by reflexivity.
  assert (H2 : 0 <= roll initial_state <= pitch initial_state)
    by (unfold initial_state; cbn [roll pitch]; lra).
  destruct (angles_stay_ordered 3 initial_state H1 H2) as (H3 & H4 & _).
  exact (conj H1 (conj H2 (conj H3 H4))).
Defined.

(** The projector is defined as soon as both products convert to integers
    of moderate size: the offsets and the row multiplication then stay far
    inside the 32-bit range. *)
Lemma project32_defined (v : Vertex32) (xq yq : Z) :
  f32_to_int (column_product32 v) = Some xq ->
  f32_to_int (row_product32 v) = Some yq ->
  (Z.abs xq <= 1000000)%Z -> (Z.abs yq <= 1000000)%Z ->
  project32 v
  = Some (mkProjection32 (invZ32 v) (xq + 75) (yq + 25)
            (xq + 75 + (yq + 25) * SCREEN_WIDTH)).
Proof.
  intros Hx Hy Hxb Hyb. unfold project32.
  rewrite Hx, Hy, f32_to_int_X_OFFSET32, f32_to_int_Y_OFFSET32.
  assert (Hin : forall n : Z,
             (Z.abs n <= 200000000)%Z -> int_checked n = Some n).
  { intros n Hn. unfold int_checked, INT_MIN, INT_MAX.
    destruct (Z.leb_spec (-2147483648) n), (Z.leb_spec n 2147483647);
      cbn [andb]; [reflexivity | lia | lia | lia]. }
  unfold SCREEN_WIDTH.
  rewrite !Hin by lia. reflexivity.
Qed.
